(** * Credit card validator (main.cpp): a shallow embedding and its properties

    The program reads a card number, an expiry date, a holder name and a CVV,
    checks the length of the number, runs the Luhn check, then prints the
    detected network, the CVV status and the expiry status, appends a record
    to card_log.txt and prints a decorative risk score.

    C++ [int] is a 32-bit two's complement integer, modelled as [Z] with the
    wrap-around written out ([wrap32]).  [std::string] is a [list ascii].
    Output streams, the log file and exceptions are threaded through a small
    state-and-exception monad. *)

From Stdlib Require Import ZArith List Ascii String Bool Lia.
Import ListNotations.
Local Open Scope Z_scope.

(** ** Machine integers *)

Module Int.

Definition INT_MIN : Z := - 2 ^ 31.
Definition INT_MAX : Z := 2 ^ 31 - 1.

(** Reduction of a mathematical integer to the value an [int] holds. *)
Definition wrap32 (z : Z) : Z := (z + 2 ^ 31) mod 2 ^ 32 - 2 ^ 31.

Definition in_int (z : Z) : Prop := INT_MIN <= z <= INT_MAX.

Definition add (a b : Z) : Z := wrap32 (a + b).
Definition sub (a b : Z) : Z := wrap32 (a - b).
Definition mul (a b : Z) : Z := wrap32 (a * b).

(** C++ [%] truncates towards zero. *)
Definition rem (a b : Z) : Z := Z.rem a b.

End Int.

(** ** Strings *)

Definition cstring : Type := list ascii.

(** A string literal of the source. *)
Definition lit (s : string) : cstring := list_ascii_of_string s.

Definition code (c : ascii) : Z := Z.of_N (N_of_ascii c).

Definition NUL : ascii := ascii_of_N 0.
Definition nl : cstring := [ascii_of_N 10].

(** [s[i]]: for [i = s.size()] the standard returns a reference to a null
    character. *)
Definition at_index (s : cstring) (i : nat) : ascii := nth i s NUL.

(** [size_t] arithmetic is modulo 2^64. *)
Definition size_t_wrap (z : Z) : Z := z mod 2 ^ 64.

Definition size (s : cstring) : Z := Z.of_nat (List.length s).

(** [isdigit] in the C locale. *)
Definition isdigit (c : ascii) : bool := (48 <=? code c) && (code c <=? 57).

(** [isspace] in the C locale: space, \t, \n, \v, \f, \r. *)
Definition isspace (c : ascii) : bool :=
  (code c =? 32) || ((9 <=? code c) && (code c <=? 13)).

Definition eqb_cstring (a b : cstring) : bool :=
  if list_eq_dec ascii_dec a b then true else false.

(** ** Exceptions *)

Inductive exn : Type :=
| CardException (msg : cstring)
| std_out_of_range
| std_invalid_argument.

Inductive result (A : Type) : Type :=
| Ok (a : A)
| Throw (e : exn).
Arguments Ok {A} a.
Arguments Throw {A} e.

(** [s.substr(pos, n)]: throws [std::out_of_range] when [pos > size()]. *)
Definition substr (s : cstring) (pos : Z) (n : nat) : result cstring :=
  if pos >? size s then Throw std_out_of_range
  else Ok (firstn n (skipn (Z.to_nat pos) s)).

(** [s.substr(pos)]: to the end of the string. *)
Definition substr_from (s : cstring) (pos : Z) : result cstring :=
  if pos >? size s then Throw std_out_of_range
  else Ok (skipn (Z.to_nat pos) s).

(** ** The Luhn check: [CreditCard::validateCardNumber] (lines 43-64) *)

(** The body of the [for] loop for one index [i], on the pair
    [(sum, alternate)]. *)
Definition luhn_body (cardNumber : cstring) (i : nat) (st : Z * bool)
  : Z * bool :=
  let '(sum, alternate) := st in
  if isdigit (at_index cardNumber i) then
    let n := Int.sub (code (at_index cardNumber i)) 48 in
    let n := if alternate
             then (let n := Int.mul n 2 in
                   if n >? 9 then Int.sub n 9 else n)
             else n in
    (Int.add sum n, negb alternate)
  else (sum, alternate).

(** [for (int i = k - 1; i >= 0; --i) body]: the index runs from [k - 1]
    down to [0]. *)
Fixpoint luhn_loop (cardNumber : cstring) (k : nat) (st : Z * bool)
  : Z * bool :=
  match k with
  | O => st
  | S i => luhn_loop cardNumber i (luhn_body cardNumber i st)
  end.

(** The initial index is [int i = cardNumber.length() - 1]: a [size_t]
    difference converted to [int]; the loop runs while [i >= 0]. *)
Definition luhn_start (cardNumber : cstring) : Z :=
  Int.wrap32 (size_t_wrap (size cardNumber - 1)).

Definition validateCardNumber (cardNumber : cstring) : bool :=
  let i0 := luhn_start cardNumber in
  let '(sum, _) := luhn_loop cardNumber (Z.to_nat (i0 + 1)) (0, false) in
  Int.rem sum 10 =? 0.

(** ** Network detection: [CreditCard::detectCardType] (lines 67-76) *)

Definition bind_result {A B} (r : result A) (k : A -> result B) : result B :=
  match r with
  | Ok a => k a
  | Throw e => Throw e
  end.

Notation "'let*' x ':=' r 'in' k" := (bind_result r (fun x => k))
  (at level 10, x name, r at level 100, k at level 200).

(** [cardNumber.substr(0, 2) == p || cardNumber.substr(0, 2) == q]: the
    second operand is evaluated only when the first comparison fails. *)
Definition prefix_is (cardNumber p q : cstring) : result bool :=
  let* a := substr cardNumber 0 2 in
  if eqb_cstring a p then Ok true
  else let* b := substr cardNumber 0 2 in Ok (eqb_cstring b q).

Definition detectCardType (cardNumber : cstring) : result cstring :=
  if Ascii.eqb (at_index cardNumber 0) "4" then Ok (lit "Visa")
  else
    let* mc := prefix_is cardNumber (lit "51") (lit "52") in
    if mc then Ok (lit "MasterCard")
    else
      let* ax := prefix_is cardNumber (lit "34") (lit "37") in
      if ax then Ok (lit "American Express")
      else Ok (lit "Unknown").

(** ** Decimal conversions *)

Definition digit_char (d : Z) : ascii := ascii_of_N (Z.to_N (48 + d)).

(** The decimal digits of a non-negative number, most significant first;
    [fuel] bounds the number of digits (an [int] has at most ten). *)
Fixpoint dec_digits (fuel : nat) (z : Z) : cstring :=
  match fuel with
  | O => []
  | S f => (if z <? 10 then [] else dec_digits f (z / 10))
             ++ [digit_char (z mod 10)]
  end.

(** [std::to_string(int)]: the text [printf("%d")] produces. *)
Definition to_string (z : Z) : cstring :=
  if z <? 0 then "-"%char :: dec_digits 10 (- z) else dec_digits 10 z.

Fixpoint drop_while (p : ascii -> bool) (s : cstring) : cstring :=
  match s with
  | c :: r => if p c then drop_while p r else s
  | [] => []
  end.

Fixpoint take_while (p : ascii -> bool) (s : cstring) : cstring :=
  match s with
  | c :: r => if p c then c :: take_while p r else []
  | [] => []
  end.

(** The integer a decimal scan of [s] reads: leading white space, an
    optional sign, then the longest run of digits; [None] when there is no
    digit.  The value is not yet reduced to any machine type. *)
Definition scan_int (s : cstring) : option Z :=
  let s1 := drop_while isspace s in
  let '(neg, s2) :=
    match s1 with
    | c :: r => if Ascii.eqb c "-" then (true, r)
                else if Ascii.eqb c "+" then (false, r)
                else (false, s1)
    | [] => (false, s1)
    end in
  match take_while isdigit s2 with
  | [] => None
  | ds => let v := fold_left (fun acc c => acc * 10 + (code c - 48)) ds 0 in
          Some (if neg then - v else v)
  end.

(** [std::stoi]: [std::invalid_argument] when nothing converts,
    [std::out_of_range] when the value does not fit an [int]. *)
Definition stoi (s : cstring) : result Z :=
  match scan_int s with
  | None => Throw std_invalid_argument
  | Some v => if (v <? Int.INT_MIN) || (v >? Int.INT_MAX)
              then Throw std_out_of_range else Ok v
  end.

(** The conversion stage of [cin >> cvv] for an [int], reached once the
    stream has found a character other than white space: on a failed
    conversion the variable is set to 0, on overflow to the nearest limit;
    no exception is raised (the stream only records the failure). *)
Definition istream_int (s : cstring) : Z :=
  match scan_int s with
  | None => 0
  | Some v => if v <? Int.INT_MIN then Int.INT_MIN
              else if v >? Int.INT_MAX then Int.INT_MAX else v
  end.

(** [cin >> cvv] as a whole, for a variable that holds [old]: when nothing
    but white space is left to read (or nothing at all), the extraction
    stops before the conversion and the variable keeps [old]; otherwise the
    conversion stores its value. *)
Definition cin_read_int (old : Z) (s : cstring) : Z :=
  match drop_while isspace s with
  | [] => old
  | _ :: _ => istream_int s
  end.

(** ** The card object *)

Record CreditCard : Type := mkCard {
  cardNumber : cstring;
  expiryDate : cstring;
  cardHolder : cstring;
  cardType : cstring;
  cvv : Z
}.

(** The constructor leaves [cardType] default-initialised (empty). *)
Definition CreditCard_new (number expiry holder : cstring) (cvv : Z)
  : CreditCard :=
  mkCard number expiry holder [] cvv.

Definition set_cardType (c : CreditCard) (t : cstring) : CreditCard :=
  mkCard (cardNumber c) (expiryDate c) (cardHolder c) t (cvv c).

(** [CreditCard::maskCardNumber] (lines 38-40). *)
Definition maskCardNumber (c : CreditCard) : result cstring :=
  let* last4 := substr_from (cardNumber c)
                  (size_t_wrap (size (cardNumber c) - 4)) in
  Ok (lit "XXXX-XXXX-XXXX-" ++ last4).

(** [CreditCard::isCVVValid] (lines 79-86). *)
Definition isCVVValid (c : CreditCard) : bool :=
  if (eqb_cstring (cardType c) (lit "American Express")
        && (size (to_string (cvv c)) =? 4))
     || (negb (eqb_cstring (cardType c) (lit "American Express"))
        && (size (to_string (cvv c)) =? 3))
  then true
  else false.

(** ** Expiry classification: the branch of [CreditCard::checkExpiry]
    (lines 101-108) *)

Inductive ExpiryStatus : Type := Expired | ExpiringSoon | Valid.

Definition expiryStatus (month year currentMonth currentYear : Z)
  : ExpiryStatus :=
  if (year <? currentYear)
     || ((year =? currentYear) && (month <? currentMonth))
  then Expired
  else if ((year =? currentYear) && (Int.sub month currentMonth <=? 6))
          || ((year =? Int.add currentYear 1) && (currentMonth >? month))
  then ExpiringSoon
  else Valid.

Definition status_line (st : ExpiryStatus) : cstring :=
  match st with
  | Expired => lit "🔴 Status: Card is **Expired**!"
  | ExpiringSoon => lit "🟡 Status: Card is expiring **soon**!"
  | Valid => lit "🟢 Status: Card is **Valid**."
  end.

(** ** The program's world: streams, the log file, the clock *)

(** The member functions and steps of the pipeline, recorded in call order.
    The record is ghost state: it is not observable in the program and only
    serves to state which steps a run reached. *)
Inductive Stage : Type :=
| StConstruct | StLuhn | StDetect | StCVV | StExpiry | StLog | StRisk.

Record World : Type := mkWorld {
  cout : cstring;       (* standard output *)
  cerr : cstring;       (* standard error *)
  card_log : cstring;   (* contents of card_log.txt *)
  stages : list Stage   (* ghost: steps entered so far *)
}.

(** What the environment supplies: [localtime]'s [tm_mon] and [tm_year] and
    the value [rand()] returns after seeding. *)
Record Env : Type := mkEnv {
  tm_mon : Z;
  tm_year : Z;
  rand_value : Z
}.

(** Computations that change the world and may throw. *)
Definition M (A : Type) : Type := World -> result A * World.

Definition ret {A} (a : A) : M A := fun w => (Ok a, w).

Definition bind {A B} (m : M A) (k : A -> M B) : M B :=
  fun w => match m w with
           | (Ok a, w') => k a w'
           | (Throw e, w') => (Throw e, w')
           end.

Definition throw {A} (e : exn) : M A := fun w => (Throw e, w).

Definition lift {A} (r : result A) : M A := fun w => (r, w).

Notation "x <- m ;; k" := (bind m (fun x => k))
  (at level 61, m at next level, right associativity).
Notation "m ;; k" := (bind m (fun _ => k))
  (at level 61, right associativity).

Definition print (s : cstring) : M unit :=
  fun w => (Ok tt, mkWorld (cout w ++ s) (cerr w) (card_log w) (stages w)).

Definition eprint (s : cstring) : M unit :=
  fun w => (Ok tt, mkWorld (cout w) (cerr w ++ s) (card_log w) (stages w)).

(** Writing to the [ofstream] opened on card_log.txt with [ios::app]. *)
Definition fwrite (s : cstring) : M unit :=
  fun w => (Ok tt, mkWorld (cout w) (cerr w) (card_log w ++ s) (stages w)).

Definition enter (st : Stage) : M unit :=
  fun w => (Ok tt, mkWorld (cout w) (cerr w) (card_log w) (stages w ++ [st])).

(** ** The stateful member functions *)

(** [CreditCard::checkExpiry] (lines 89-109). *)
Definition checkExpiry (env : Env) (c : CreditCard) : M unit :=
  enter StExpiry ;;
  mm <- lift (substr (expiryDate c) 0 2) ;;
  month <- lift (stoi mm) ;;
  yy <- lift (substr (expiryDate c) 3 2) ;;
  year <- lift (stoi (lit "20" ++ yy)) ;;
  let currentMonth := Int.add (tm_mon env) 1 in
  let currentYear := Int.add (tm_year env) 1900 in
  print (status_line (expiryStatus month year currentMonth currentYear)) ;;
  print nl.

(** [CreditCard::logToFile] (lines 112-119). *)
Definition logToFile (c : CreditCard) : M unit :=
  enter StLog ;;
  fwrite (lit "Card Holder: ") ;; fwrite (cardHolder c) ;; fwrite nl ;;
  fwrite (lit "Card Type: ") ;; fwrite (cardType c) ;; fwrite nl ;;
  fwrite (lit "Masked Card: ") ;;
  masked <- lift (maskCardNumber c) ;;
  fwrite masked ;; fwrite nl ;;
  fwrite (lit "Expiry: ") ;; fwrite (expiryDate c) ;; fwrite (nl ++ nl).

(** [CreditCard::displayCardInfo] (lines 122-132); returns the card with
    its [cardType] set. *)
Definition displayCardInfo (env : Env) (c : CreditCard) : M CreditCard :=
  print (nl ++ lit "Card Holder: ") ;; print (cardHolder c) ;; print nl ;;
  print (lit "Card Number (masked): ") ;;
  masked <- lift (maskCardNumber c) ;;
  print masked ;; print nl ;;
  enter StDetect ;;
  t <- lift (detectCardType (cardNumber c)) ;;
  let c := set_cardType c t in
  print (lit "Card Type: ") ;; print (cardType c) ;; print nl ;;
  print (lit "CVV Status: ") ;;
  enter StCVV ;;
  print (if isCVVValid c then lit "Valid" else lit "Invalid") ;; print nl ;;
  checkExpiry env c ;;
  logToFile c ;;
  ret c.

(** [EnhancedCard::cardRiskScore] (lines 144-148): [rand() % 100] divided by
    100 and printed with two decimals, that is "0." and two digits. *)
Definition cardRiskScore (env : Env) : M unit :=
  enter StRisk ;;
  let r := Int.rem (rand_value env) 100 in
  print (lit "AI Risk Score (0=Safe, 1=High Risk): ") ;;
  print (lit "0." ++ [digit_char (r / 10); digit_char (r mod 10)]) ;;
  print nl.

(** ** [main] (lines 152-201) *)

(** What [main]'s local variables start from: the texts typed at the
    prompts (the CVV is the text left for [cin >> cvv]), and for [int cvv],
    declared without an initialiser (line 159), the indeterminate value it
    holds before the read. *)
Record Input : Type := mkInput {
  in_number : cstring;
  in_expiry : cstring;
  in_holder : cstring;
  in_cvv : cstring;
  cvv_uninit : Z
}.

Definition msg_length : cstring := lit "❌ Invalid card number length!".
Definition msg_luhn : cstring :=
  lit "❌ Card number failed Luhn check! Invalid.".
Definition msg_unexpected : cstring := lit "Unexpected error occurred!".

(** The [try] block. *)
Definition main_try (env : Env) (inp : Input) : M unit :=
  print (lit "💳 Welcome to Credit Card Validator 💳" ++ nl ++ nl) ;;
  print (lit "Enter Card Number (no spaces or dashes): ") ;;
  let number := in_number inp in
  print (lit "Enter Expiry Date (MM/YY): ") ;;
  let expiry := in_expiry inp in
  print (lit "Enter Card Holder Name: ") ;;
  let holder := in_holder inp in
  print (lit "Enter CVV: ") ;;
  let cvv := cin_read_int (cvv_uninit inp) (in_cvv inp) in
  (if (size number <? 13) || (size number >? 19)
   then throw (CardException msg_length) else ret tt) ;;
  enter StConstruct ;;
  let card := CreditCard_new number expiry holder cvv in
  enter StLuhn ;;
  (if negb (validateCardNumber (cardNumber card))
   then throw (CardException msg_luhn) else ret tt) ;;
  card <- displayCardInfo env card ;;
  cardRiskScore env.

(** The [catch] clauses and [return 0]: the exit status and the final
    world. *)
Definition main (env : Env) (inp : Input) (w : World) : Z * World :=
  match main_try env inp w with
  | (Ok _, w') => (0, w')
  | (Throw (CardException msg), w') =>
      let '(_, w'') := (eprint msg ;; eprint nl) w' in (0, w'')
  | (Throw _, w') =>
      let '(_, w'') := (eprint msg_unexpected ;; eprint nl) w' in (0, w'')
  end.

Arguments lit : simpl never.

(** ** Definitions that follow the specification's wording

    These are compared with the definitions above, which follow the code. *)

Definition all_digits (s : cstring) : Prop :=
  Forall (fun c => isdigit c = true) s.

Definition digit_value (c : ascii) : Z := code c - 48.

(** The alternating-doubled sum of a digit sequence given right to left:
    every second digit is doubled, and 9 is subtracted when the doubled
    value exceeds 9.  [double] tells whether the head is a doubled one. *)
Fixpoint alt_doubled_sum (ds : list Z) (double : bool) : Z :=
  match ds with
  | [] => 0
  | d :: r =>
      (if double then (if 2 * d >? 9 then 2 * d - 9 else 2 * d) else d)
      + alt_doubled_sum r (negb double)
  end.

(** Traversal from the right, the rightmost digit not doubled. *)
Definition luhn_sum (s : cstring) : Z :=
  alt_doubled_sum (rev (map digit_value s)) false.

(** The string with its last digit incremented modulo 10. *)
Definition bump_last_digit (s : cstring) : cstring :=
  match rev s with
  | [] => []
  | c :: r => rev r ++ [digit_char ((digit_value c + 1) mod 10)]
  end.

(** The three classes of section 4.5, over mathematical integers. *)
Definition spec_expired (month year currentMonth currentYear : Z) : Prop :=
  year < currentYear \/ (year = currentYear /\ month < currentMonth).

Definition spec_expiring_soon (month year currentMonth currentYear : Z)
  : Prop :=
  (year = currentYear /\ month - currentMonth <= 6)
  \/ (year = currentYear + 1 /\ currentMonth > month).

(** [p] is what [s] begins with. *)
Fixpoint starts_with (p s : cstring) : bool :=
  match p, s with
  | [], _ => true
  | a :: p', b :: s' => Ascii.eqb a b && starts_with p' s'
  | _ :: _, [] => false
  end.

(** The priority list of section 4.3. *)
Definition spec_network (number : cstring) : cstring :=
  if starts_with (lit "4") number then lit "Visa"
  else if starts_with (lit "51") number || starts_with (lit "52") number
  then lit "MasterCard"
  else if starts_with (lit "34") number || starts_with (lit "37") number
  then lit "American Express"
  else lit "Unknown".

(** The digit count of a CVV as it is typed: the number of digit
    characters in the text. *)
Definition typed_digit_count (cvv_text : cstring) : Z :=
  size (filter isdigit cvv_text).

(** Everything [main] prints before the length check. *)
Definition prompt_text : cstring :=
  lit "💳 Welcome to Credit Card Validator 💳" ++ nl ++ nl
  ++ lit "Enter Card Number (no spaces or dashes): "
  ++ lit "Enter Expiry Date (MM/YY): "
  ++ lit "Enter Card Holder Name: "
  ++ lit "Enter CVV: ".

(** The line an exception leaves on the error stream. *)
Definition report (e : exn) : cstring :=
  match e with
  | CardException msg => msg
  | _ => msg_unexpected
  end.

(** The Luhn loop body as a function of the character alone, and the loop
    as a left fold; used to reason about [luhn_loop]. *)
Definition luhn_step (st : Z * bool) (c : ascii) : Z * bool :=
  let '(sum, alternate) := st in
  if isdigit c then
    let n := Int.sub (code c) 48 in
    let n := if alternate
             then (let n := Int.mul n 2 in
                   if n >? 9 then Int.sub n 9 else n)
             else n in
    (Int.add sum n, negb alternate)
  else (sum, alternate).

(** The two conversions at the head of [checkExpiry], in the order the
    code makes them: the month, then the year. *)
Definition parse_expiry (expiry : cstring) : result (Z * Z) :=
  let* mm := substr expiry 0 2 in
  let* month := stoi mm in
  let* yy := substr expiry 3 2 in
  let* year := stoi (lit "20" ++ yy) in
  Ok (month, year).

(** The length test of [main]. *)
Definition bad_length (number : cstring) : bool :=
  (size number <? 13) || (size number >? 19).

(** The last four characters, as [maskCardNumber] shows them. *)
Definition last4 (number : cstring) : cstring :=
  skipn (Z.to_nat (size number - 4)) number.

(** The block [logToFile] appends. *)
Definition log_block (c : CreditCard) : cstring :=
  lit "Card Holder: " ++ cardHolder c ++ nl
  ++ lit "Card Type: " ++ cardType c ++ nl
  ++ lit "Masked Card: " ++ lit "XXXX-XXXX-XXXX-" ++ last4 (cardNumber c)
  ++ nl
  ++ lit "Expiry: " ++ expiryDate c ++ nl ++ nl.

(** What [displayCardInfo] prints before it calls [checkExpiry]; [c] has
    its [cardType] set. *)
Definition card_text (c : CreditCard) : cstring :=
  nl ++ lit "Card Holder: " ++ cardHolder c ++ nl
  ++ lit "Card Number (masked): " ++ lit "XXXX-XXXX-XXXX-"
  ++ last4 (cardNumber c) ++ nl
  ++ lit "Card Type: " ++ cardType c ++ nl
  ++ lit "CVV Status: "
  ++ (if isCVVValid c then lit "Valid" else lit "Invalid") ++ nl.

(** The card [main] builds, once [displayCardInfo] has set its type. *)
Definition card_of (inp : Input) : CreditCard :=
  set_cardType
    (CreditCard_new (in_number inp) (in_expiry inp) (in_holder inp)
                    (cin_read_int (cvv_uninit inp) (in_cvv inp)))
    (spec_network (in_number inp)).

(** The stages a run goes through, by the three tests that can stop it. *)
Definition stages_reached (inp : Input) : list Stage :=
  if bad_length (in_number inp) then []
  else [StConstruct; StLuhn]
       ++ (if negb (validateCardNumber (in_number inp)) then []
           else [StDetect; StCVV; StExpiry]
                ++ match parse_expiry (in_expiry inp) with
                   | Ok _ => [StLog; StRisk]
                   | Throw _ => []
                   end).

(** How the [try] block ends. *)
Definition outcome (inp : Input) : result unit :=
  if bad_length (in_number inp) then Throw (CardException msg_length)
  else if negb (validateCardNumber (in_number inp))
  then Throw (CardException msg_luhn)
  else match parse_expiry (in_expiry inp) with
       | Ok _ => Ok tt
       | Throw e => Throw e
       end.

(** The line [cardRiskScore] prints. *)
Definition risk_text (env : Env) : cstring :=
  lit "AI Risk Score (0=Safe, 1=High Risk): "
  ++ lit "0." ++ [digit_char (Int.rem (rand_value env) 100 / 10);
                  digit_char (Int.rem (rand_value env) 100 mod 10)]
  ++ nl.

(** What a run prints after the prompts. *)
Definition run_text (env : Env) (inp : Input) : cstring :=
  if bad_length (in_number inp) then []
  else if negb (validateCardNumber (in_number inp)) then []
  else card_text (card_of inp)
       ++ match parse_expiry (in_expiry inp) with
          | Ok (m, y) =>
              status_line (expiryStatus m y (Int.add (tm_mon env) 1)
                                        (Int.add (tm_year env) 1900))
              ++ nl ++ risk_text env
          | Throw _ => []
          end.

(** What a run appends to card_log.txt. *)
Definition log_text (inp : Input) : cstring :=
  match outcome inp with
  | Ok _ => log_block (card_of inp)
  | Throw _ => []
  end.

(** What a run writes to the error stream. *)
Definition err_text (inp : Input) : cstring :=
  match outcome inp with
  | Ok _ => []
  | Throw e => report e ++ nl
  end.

(** What one digit adds to the Luhn sum: itself, or when it is a doubled
    one, twice itself less 9 if that exceeds 9. *)
Definition luhn_digit (d : Z) (double : bool) : Z :=
  if double then (if 2 * d >? 9 then 2 * d - 9 else 2 * d) else d.

(** The digit that, appended to the digit string [payload], makes the
    Luhn sum a multiple of 10. *)
Definition check_digit (payload : cstring) : ascii :=
  digit_char
    ((- alt_doubled_sum (rev (map digit_value payload)) true) mod 10).

(** How many months after the current month the expiry month lies. *)
Definition months_ahead (month year currentMonth currentYear : Z) : Z :=
  (year - currentYear) * 12 + (month - currentMonth).

(** * Properties *)

(** ** Machine arithmetic *)

Lemma wrap32_small (z : Z) : Int.in_int z -> Int.wrap32 z = z.
Proof.
  unfold Int.in_int, Int.INT_MIN, Int.INT_MAX, Int.wrap32. intros H.
  rewrite Z.mod_small; lia.
Qed.

Lemma wrap32_range (z : Z) : Int.in_int (Int.wrap32 z).
Proof.
  unfold Int.in_int, Int.INT_MIN, Int.INT_MAX, Int.wrap32.
  pose proof (Z.mod_pos_bound (z + 2 ^ 31) (2 ^ 32) ltac:(lia)). lia.
Qed.

Lemma isdigit_range (c : ascii) :
  isdigit c = true -> 0 <= digit_value c <= 9.
Proof.
  unfold isdigit, digit_value. intros H.
  apply andb_true_iff in H. destruct H as [H1 H2].
  apply Z.leb_le in H1. apply Z.leb_le in H2. lia.
Qed.

(** ** The Luhn loop *)

Section Luhn.

Lemma luhn_body_step (s : cstring) (i : nat) (st : Z * bool) :
  luhn_body s i st = luhn_step st (at_index s i).
Proof. destruct st. reflexivity. Qed.

Lemma firstn_snoc (s : cstring) (i : nat) :
  (i < List.length s)%nat ->
  firstn (S i) s = firstn i s ++ [at_index s i].
Proof.
  revert i. induction s as [|c s IH]; intros i Hi; simpl in Hi.
  - lia.
  - destruct i as [|i]; [reflexivity|].
    change (firstn (S (S i)) (c :: s)) with (c :: firstn (S i) s).
    rewrite IH by lia. reflexivity.
Qed.

(** The index loop visits the first [k] characters from the right. *)
Lemma luhn_loop_fold (s : cstring) (k : nat) (st : Z * bool) :
  (k <= List.length s)%nat ->
  luhn_loop s k st = fold_left luhn_step (rev (firstn k s)) st.
Proof.
  revert st. induction k as [|i IH]; intros st Hk.
  - reflexivity.
  - simpl luhn_loop. rewrite IH by lia.
    rewrite firstn_snoc by lia. rewrite rev_app_distr. simpl.
    rewrite luhn_body_step. reflexivity.
Qed.

Lemma luhn_start_length (s : cstring) :
  size s <= Int.INT_MAX ->
  Z.to_nat (luhn_start s + 1) = List.length s.
Proof.
  unfold luhn_start, size_t_wrap, size, Int.INT_MAX. intros H.
  destruct s as [|c s].
  - reflexivity.
  - remember (List.length (c :: s)) as n eqn:En.
    assert (0 < Z.of_nat n) by (subst n; simpl; lia).
    rewrite Z.mod_small by lia.
    rewrite wrap32_small
      by (unfold Int.in_int, Int.INT_MIN, Int.INT_MAX; lia).
    lia.
Qed.

Lemma validateCardNumber_fold (s : cstring) :
  size s <= Int.INT_MAX ->
  validateCardNumber s =
  (Int.rem (fst (fold_left luhn_step (rev s) (0, false))) 10 =? 0).
Proof.
  intros H. unfold validateCardNumber.
  rewrite luhn_start_length by assumption.
  rewrite luhn_loop_fold by lia. rewrite firstn_all.
  destruct (fold_left luhn_step (rev s) (0, false)). reflexivity.
Qed.

Lemma luhn_step_nondigit (st : Z * bool) (c : ascii) :
  isdigit c = false -> luhn_step st c = st.
Proof. intros H. destruct st. unfold luhn_step. rewrite H. reflexivity. Qed.

Lemma fold_luhn_filter (l : cstring) (st : Z * bool) :
  fold_left luhn_step (filter isdigit l) st = fold_left luhn_step l st.
Proof.
  revert st. induction l as [|c l IH]; intros st; simpl.
  - reflexivity.
  - destruct (isdigit c) eqn:E; simpl.
    + apply IH.
    + rewrite IH, luhn_step_nondigit by assumption. reflexivity.
Qed.

Lemma filter_size_le (s : cstring) : size (filter isdigit s) <= size s.
Proof. unfold size. pose proof (filter_length_le isdigit s). lia. Qed.

Lemma alt_doubled_sum_cons (d : Z) (r : list Z) (b : bool) :
  alt_doubled_sum (d :: r) b =
  (if b then (if 2 * d >? 9 then 2 * d - 9 else 2 * d) else d)
  + alt_doubled_sum r (negb b).
Proof. reflexivity. Qed.

(** One digit, when the running sum stays within [int] range. *)
Lemma luhn_step_digit (sum : Z) (alt : bool) (c : ascii) :
  isdigit c = true ->
  0 <= sum -> sum + 9 <= Int.INT_MAX ->
  luhn_step (sum, alt) c =
  (sum + (if alt
          then (if 2 * digit_value c >? 9
                then 2 * digit_value c - 9 else 2 * digit_value c)
          else digit_value c),
   negb alt).
Proof.
  intros Hc H0 Hb. pose proof (isdigit_range c Hc) as Hr.
  assert (forall z, - 9 <= z <= 2 ^ 31 - 1 -> Int.wrap32 z = z) as W.
  { intros z Hz. apply wrap32_small.
    unfold Int.in_int, Int.INT_MIN, Int.INT_MAX. lia. }
  assert (Int.sub (code c) 48 = digit_value c) as Hsub
    by (unfold Int.sub; unfold digit_value in *; apply W; lia).
  unfold luhn_step. rewrite Hc. cbv zeta. rewrite !Hsub.
  remember (digit_value c) as d eqn:Ed. clear Ed Hsub.
  unfold Int.INT_MAX in Hb.
  unfold Int.sub, Int.mul, Int.add.
  replace (d * 2) with (2 * d) by lia.
  destruct alt.
  - rewrite !(W (2 * d)) by lia.
    destruct (2 * d >? 9) eqn:E.
    + rewrite (W (2 * d - 9)) by lia. rewrite W by lia. reflexivity.
    + rewrite W by lia. reflexivity.
  - rewrite W by lia. reflexivity.
Qed.

(** On digits and within [int] range the fold computes the alternating
    doubled sum. *)
Lemma fold_luhn_sum (l : cstring) (sum : Z) (alt : bool) :
  all_digits l ->
  0 <= sum -> sum + 9 * size l <= Int.INT_MAX ->
  fst (fold_left luhn_step l (sum, alt)) =
  sum + alt_doubled_sum (map digit_value l) alt.
Proof.
  revert sum alt. induction l as [|c l IH]; intros sum alt Hd H0 Hb.
  - simpl. lia.
  - inversion Hd as [|? ? Hc Hl]; subst.
    pose proof (isdigit_range c Hc) as Hr.
    assert (size (c :: l) = size l + 1) as Hs
      by (unfold size; simpl List.length; lia).
    assert (0 <= size l) by (unfold size; lia).
    rewrite Hs in Hb.
    change (fold_left luhn_step (c :: l) (sum, alt))
      with (fold_left luhn_step l (luhn_step (sum, alt) c)).
    rewrite luhn_step_digit by (assumption || lia).
    change (map digit_value (c :: l))
      with (digit_value c :: map digit_value l).
    rewrite alt_doubled_sum_cons.
    remember (digit_value c) as d eqn:Ed. clear Ed.
    assert (0 <= (if alt then if 2 * d >? 9 then 2 * d - 9 else 2 * d
                  else d) <= 9) as Hk.
    { destruct alt; [destruct (2 * d >? 9) eqn:E|]; lia. }
    rewrite IH by (assumption || lia). lia.
Qed.

Lemma alt_doubled_sum_nonneg (ds : list Z) (b : bool) :
  Forall (fun d => 0 <= d) ds -> 0 <= alt_doubled_sum ds b.
Proof.
  revert b. induction ds as [|d r IH]; intros b H.
  - simpl. lia.
  - rewrite alt_doubled_sum_cons.
    inversion H; subst. specialize (IH (negb b) ltac:(assumption)).
    destruct b; [destruct (2 * d >? 9) eqn:E; [apply Z.gtb_lt in E|]|]; lia.
Qed.

End Luhn.

Lemma all_digits_rev (s : cstring) : all_digits s -> all_digits (rev s).
Proof. unfold all_digits. apply Forall_rev. Qed.

Lemma size_rev (s : cstring) : size (rev s) = size s.
Proof. unfold size. rewrite length_rev. reflexivity. Qed.

(** For a digit string short enough that the sum cannot overflow, the code
    computes [luhn_sum]. *)
Lemma validateCardNumber_sum (s : cstring) :
  all_digits s -> 9 * size s <= Int.INT_MAX ->
  validateCardNumber s = (Int.rem (luhn_sum s) 10 =? 0).
Proof.
  intros Hd Hb.
  assert (0 <= size s) by (unfold size; lia).
  rewrite validateCardNumber_fold by lia.
  rewrite fold_luhn_sum.
  - unfold luhn_sum. rewrite map_rev. reflexivity.
  - apply all_digits_rev; assumption.
  - lia.
  - rewrite size_rev. lia.
Qed.

(** C1. For every digit string of length 13 to 19, [validateCardNumber]
    returns true exactly when the alternating-doubled digit sum (taken from
    the right, every second digit doubled, 9 subtracted when the doubled
    value exceeds 9) is divisible by 10.  The test vector
    "4539578763621486" validates, and the same string with its last digit
    incremented modulo 10 does not. *)
Theorem luhn_checker_correct :
  (forall s : cstring,
      all_digits s -> 13 <= size s <= 19 ->
      (validateCardNumber s = true <-> (10 | luhn_sum s)))
  /\ validateCardNumber (lit "4539578763621486") = true
  /\ bump_last_digit (lit "4539578763621486") = lit "4539578763621487"
  /\ validateCardNumber (bump_last_digit (lit "4539578763621486")) = false.
Proof.
  split; [|repeat split; reflexivity].
  intros s Hd Hlen.
  rewrite validateCardNumber_sum
    by (assumption || (unfold Int.INT_MAX; lia)).
  unfold Int.rem. rewrite Z.eqb_eq. apply Z.rem_divide. lia.
Qed.

Lemma luhn_checker_correct_witness :
  validateCardNumber (lit "4539578763621486") = true
  <-> (10 | luhn_sum (lit "4539578763621486")).
Proof.
  apply (proj1 luhn_checker_correct).
  - repeat constructor.
  - unfold size. simpl. lia.
Defined.

(** C8. In the Luhn loop a character that is not a digit leaves both the
    sum and the alternation flag as they are; hence the result for a string
    is the result for the string with its non-digit characters removed.
    The string's length is one an [int] index can hold. *)
Theorem luhn_ignores_non_digits :
  (forall (s : cstring) (i : nat) (st : Z * bool),
      isdigit (at_index s i) = false -> luhn_body s i st = st)
  /\ (forall s : cstring,
         size s <= Int.INT_MAX ->
         validateCardNumber s = validateCardNumber (filter isdigit s)).
Proof.
  split.
  - intros s i st H. rewrite luhn_body_step.
    apply luhn_step_nondigit. assumption.
  - intros s H.
    pose proof (filter_size_le s).
    rewrite (validateCardNumber_fold s) by assumption.
    rewrite (validateCardNumber_fold (filter isdigit s)) by lia.
    rewrite <- filter_rev, fold_luhn_filter. reflexivity.
Qed.

Lemma luhn_ignores_non_digits_witness :
  validateCardNumber (lit "4539-5787 6362-1486") =
  validateCardNumber (filter isdigit (lit "4539-5787 6362-1486")).
Proof.
  apply (proj2 luhn_ignores_non_digits).
  unfold size, Int.INT_MAX. simpl. lia.
Defined.

(** ** Expiry classification *)

Section Expiry.

Variables month year currentMonth currentYear : Z.
Hypothesis Hmonth : Int.in_int month.
Hypothesis Hyear : Int.in_int year.
Hypothesis HcurrentMonth : 1 <= currentMonth <= 12.
Hypothesis HcurrentYear : Int.in_int currentYear.

(** Past the Expired test the subtraction cannot overflow. *)
Lemma sub_month_exact :
  currentMonth <= month -> Int.sub month currentMonth = month - currentMonth.
Proof.
  intros H. apply wrap32_small.
  unfold Int.in_int, Int.INT_MIN, Int.INT_MAX in *. lia.
Qed.

(** [currentYear + 1] wraps only for the last representable year, and then
    no later year exists. *)
Lemma next_year_exact :
  currentYear < year ->
  (year =? Int.add currentYear 1) = (year =? currentYear + 1).
Proof.
  intros H. unfold Int.add. rewrite wrap32_small; [reflexivity|].
  unfold Int.in_int, Int.INT_MIN, Int.INT_MAX in *. lia.
Qed.

Lemma expiryStatus_cases :
  (expiryStatus month year currentMonth currentYear = Expired
   <-> spec_expired month year currentMonth currentYear)
  /\ (expiryStatus month year currentMonth currentYear = ExpiringSoon
      <-> ~ spec_expired month year currentMonth currentYear
          /\ spec_expiring_soon month year currentMonth currentYear)
  /\ (expiryStatus month year currentMonth currentYear = Valid
      <-> ~ spec_expired month year currentMonth currentYear
          /\ ~ spec_expiring_soon month year currentMonth currentYear).
Proof.
  unfold expiryStatus, spec_expired, spec_expiring_soon.
  destruct (Z.ltb_spec year currentYear) as [Hy|Hy]; simpl.
  { repeat split; intros; try discriminate; try lia; tauto. }
  destruct (Z.eqb_spec year currentYear) as [He|He]; simpl.
  - destruct (Z.ltb_spec month currentMonth) as [Hm|Hm]; simpl.
    { repeat split; intros; try discriminate; try lia; tauto. }
    rewrite sub_month_exact by lia.
    assert (Int.add currentYear 1 <> year) as Hn.
    { pose proof (wrap32_range (currentYear + 1)) as R.
      unfold Int.add, Int.wrap32, Int.in_int, Int.INT_MIN, Int.INT_MAX in *.
      destruct (Z.eq_dec currentYear (2 ^ 31 - 1)) as [Hx|Hx].
      - rewrite Hx. vm_compute. lia.
      - rewrite Z.mod_small by lia. lia. }
    destruct (Z.leb_spec (month - currentMonth) 6) as [Hs|Hs]; simpl.
    + repeat split; intros; try discriminate; try lia; tauto.
    + destruct (Z.eqb_spec year (Int.add currentYear 1)); [congruence|].
      simpl. repeat split; intros; try discriminate; try lia.
  - rewrite next_year_exact by lia.
    destruct (Z.eqb_spec year (currentYear + 1)) as [Hn|Hn]; simpl.
    + destruct (Z.gtb_spec currentMonth month) as [Hg|Hg]; simpl;
        repeat split; intros; try discriminate; try lia.
    + repeat split; intros; try discriminate; try lia.
Qed.

End Expiry.

(** What [checkExpiry] prints for a card whose expiry text is [expiry], at
    the clock of [env]. *)
Lemma checkExpiry_prints (env : Env) (c : CreditCard) (w : World)
      (mm yy : cstring) (m y : Z) :
  substr (expiryDate c) 0 2 = Ok mm -> stoi mm = Ok m ->
  substr (expiryDate c) 3 2 = Ok yy -> stoi (lit "20" ++ yy) = Ok y ->
  checkExpiry env c w =
  (Ok tt,
   mkWorld
     ((cout w ++ status_line
         (expiryStatus m y (Int.add (tm_mon env) 1)
                       (Int.add (tm_year env) 1900))) ++ nl)
     (cerr w) (card_log w) (stages w ++ [StExpiry])).
Proof.
  intros H1 H2 H3 H4.
  unfold checkExpiry, bind, lift, enter, print. cbv beta iota.
  rewrite H1. cbv beta iota. rewrite H2. cbv beta iota.
  rewrite H3. cbv beta iota. rewrite H4. reflexivity.
Qed.

(** C2. For every expiry (month, year) and current date, the classifier
    yields exactly one of three classes in priority order: Expired iff
    year < currentYear or (year = currentYear and month < currentMonth);
    otherwise ExpiringSoon iff (year = currentYear and
    month - currentMonth <= 6) or (year = currentYear + 1 and
    currentMonth > month); otherwise Valid.  With the current date 6/2024,
    expiry 03/24 is Expired, 12/24 is ExpiringSoon and 01/26 is Valid. *)
Theorem expiry_classifier_priority :
  (forall month year currentMonth currentYear : Z,
      Int.in_int month -> Int.in_int year ->
      1 <= currentMonth <= 12 -> Int.in_int currentYear ->
      (expiryStatus month year currentMonth currentYear = Expired
       <-> spec_expired month year currentMonth currentYear)
      /\ (expiryStatus month year currentMonth currentYear = ExpiringSoon
          <-> ~ spec_expired month year currentMonth currentYear
              /\ spec_expiring_soon month year currentMonth currentYear)
      /\ (expiryStatus month year currentMonth currentYear = Valid
          <-> ~ spec_expired month year currentMonth currentYear
              /\ ~ spec_expiring_soon month year currentMonth currentYear))
  /\ (expiryStatus 3 2024 6 2024 = Expired
      /\ expiryStatus 12 2024 6 2024 = ExpiringSoon
      /\ expiryStatus 1 2026 6 2024 = Valid)
  /\ (forall (c : CreditCard) (r : Z) (w : World),
         let now := mkEnv 5 124 r in
         (expiryDate c = lit "03/24" ->
          cout (snd (checkExpiry now c w))
          = (cout w ++ status_line Expired) ++ nl)
         /\ (expiryDate c = lit "12/24" ->
             cout (snd (checkExpiry now c w))
             = (cout w ++ status_line ExpiringSoon) ++ nl)
         /\ (expiryDate c = lit "01/26" ->
             cout (snd (checkExpiry now c w))
             = (cout w ++ status_line Valid) ++ nl)).
Proof.
  split; [|split].
  - intros. apply expiryStatus_cases; assumption.
  - repeat split; reflexivity.
  - intros c r w now.
    repeat split; intros E;
      erewrite checkExpiry_prints
        by (try rewrite E; reflexivity);
      reflexivity.
Qed.

Lemma expiry_classifier_priority_witness :
  expiryStatus 12 2024 6 2024 = ExpiringSoon
  <-> ~ spec_expired 12 2024 6 2024 /\ spec_expiring_soon 12 2024 6 2024.
Proof.
  apply (proj1 expiry_classifier_priority 12 2024 6 2024);
    unfold Int.in_int, Int.INT_MIN, Int.INT_MAX; lia.
Defined.

(** C10. With the current date in month 12 of year Y, a card expiring in
    month m of year Y + 1, for any m from 1 to 11, is classified
    ExpiringSoon; so expiry 11/(Y+1), eleven months ahead, is ExpiringSoon
    and not Valid.  Y and Y + 1 are years an [int] holds. *)
Theorem expiring_soon_up_to_eleven_months :
  (forall Y m : Z,
      Int.in_int Y -> Int.in_int (Y + 1) -> 1 <= m <= 11 ->
      expiryStatus m (Y + 1) 12 Y = ExpiringSoon)
  /\ (forall Y : Z,
         Int.in_int Y -> Int.in_int (Y + 1) ->
         expiryStatus 11 (Y + 1) 12 Y = ExpiringSoon
         /\ expiryStatus 11 (Y + 1) 12 Y <> Valid)
  /\ (forall (c : CreditCard) (r : Z) (w : World),
         expiryDate c = lit "11/25" ->
         cout (snd (checkExpiry (mkEnv 11 124 r) c w))
         = (cout w ++ status_line ExpiringSoon) ++ nl).
Proof.
  assert (forall Y m : Z,
             Int.in_int Y -> Int.in_int (Y + 1) -> 1 <= m <= 11 ->
             expiryStatus m (Y + 1) 12 Y = ExpiringSoon) as G.
  { intros Y m HY HY1 Hm.
    apply expiryStatus_cases; try assumption.
    - unfold Int.in_int, Int.INT_MIN, Int.INT_MAX. lia.
    - lia.
    - unfold spec_expired, spec_expiring_soon. lia. }
  split; [exact G|split].
  - intros Y HY HY1. rewrite G by (assumption || lia).
    split; [reflexivity|discriminate].
  - intros c r w E.
    erewrite checkExpiry_prints by (try rewrite E; reflexivity).
    reflexivity.
Qed.

Lemma expiring_soon_up_to_eleven_months_witness :
  expiryStatus 11 (2024 + 1) 12 2024 = ExpiringSoon.
Proof.
  apply (proj1 expiring_soon_up_to_eleven_months 2024 11);
    unfold Int.in_int, Int.INT_MIN, Int.INT_MAX; lia.
Defined.

(** ** Network detection *)

Lemma eqb_cstring_spec (a b : cstring) : reflect (a = b) (eqb_cstring a b).
Proof.
  unfold eqb_cstring. destruct (list_eq_dec ascii_dec a b); constructor;
    assumption.
Qed.

Lemma substr_0_2 (s : cstring) : substr s 0 2 = Ok (firstn 2 s).
Proof.
  unfold substr, size.
  destruct (Z.gtb_spec 0 (Z.of_nat (List.length s))); [lia|reflexivity].
Qed.

(** Comparing the two-character prefix with a two-character literal. *)
Lemma eqb_prefix2 (s : cstring) (a b : ascii) :
  eqb_cstring (firstn 2 s) [a; b] = starts_with [a; b] s.
Proof.
  destruct s as [|c1 [|c2 r]].
  - reflexivity.
  - change (firstn 2 [c1]) with [c1].
    change (starts_with [a; b] [c1]) with (Ascii.eqb a c1 && false).
    rewrite andb_false_r.
    destruct (eqb_cstring_spec [c1] [a; b]) as [E|E];
      [discriminate E|reflexivity].
  - change (firstn 2 (c1 :: c2 :: r)) with [c1; c2].
    change (starts_with [a; b] (c1 :: c2 :: r))
      with (Ascii.eqb a c1 && (Ascii.eqb b c2 && true)).
    rewrite andb_true_r.
    destruct (eqb_cstring_spec [c1; c2] [a; b]) as [E|E];
      destruct (Ascii.eqb_spec a c1); destruct (Ascii.eqb_spec b c2);
      simpl; congruence.
Qed.

Lemma prefix_is_spec (s : cstring) (a b c d : ascii) :
  prefix_is s [a; b] [c; d]
  = Ok (starts_with [a; b] s || starts_with [c; d] s).
Proof.
  unfold prefix_is. rewrite substr_0_2. unfold bind_result.
  rewrite !eqb_prefix2.
  destruct (starts_with [a; b] s); reflexivity.
Qed.

Lemma first_char_spec (s : cstring) (a : ascii) :
  a <> NUL -> Ascii.eqb (at_index s 0) a = starts_with [a] s.
Proof.
  intros Ha. destruct s as [|c r].
  - change (Ascii.eqb NUL a = false).
    destruct (Ascii.eqb_spec NUL a); [congruence|reflexivity].
  - change (Ascii.eqb c a = Ascii.eqb a c && true).
    rewrite andb_true_r. apply Ascii.eqb_sym.
Qed.

Lemma detectCardType_spec (s : cstring) :
  detectCardType s = Ok (spec_network s).
Proof.
  unfold detectCardType, spec_network.
  change (lit "51") with ["5"; "1"]%char.
  change (lit "52") with ["5"; "2"]%char.
  change (lit "34") with ["3"; "4"]%char.
  change (lit "37") with ["3"; "7"]%char.
  change (lit "4") with ["4"]%char.
  rewrite !prefix_is_spec. unfold bind_result.
  rewrite first_char_spec by discriminate.
  destruct (starts_with ["4"%char] s); [reflexivity|].
  destruct (starts_with ["5"; "1"]%char s || starts_with ["5"; "2"]%char s);
    [reflexivity|].
  destruct (starts_with ["3"; "4"]%char s || starts_with ["3"; "7"]%char s);
    reflexivity.
Qed.

Lemma detectCardType_prefix (s : cstring) :
  detectCardType s = detectCardType (firstn 2 s).
Proof. destruct s as [|c1 [|c2 r]]; reflexivity. Qed.

(** C3. Network detection always returns a value and follows the priority
    list: first character '4' gives Visa; else the first two characters
    "51" or "52" give MasterCard; else "34" or "37" give American Express;
    else Unknown.  It depends on the first two characters only: numbers
    that agree on them get the same network. *)
Theorem network_detection_total :
  (forall s : cstring, detectCardType s = Ok (spec_network s))
  /\ (forall s1 s2 : cstring,
         firstn 2 s1 = firstn 2 s2 -> detectCardType s1 = detectCardType s2)
  /\ (detectCardType (lit "4000000000000000") = Ok (lit "Visa")
      /\ detectCardType (lit "5100000000000000") = Ok (lit "MasterCard")
      /\ detectCardType (lit "3700000000000000")
         = Ok (lit "American Express")
      /\ detectCardType (lit "6000000000000000") = Ok (lit "Unknown")).
Proof.
  split; [exact detectCardType_spec|split].
  - intros s1 s2 H.
    rewrite (detectCardType_prefix s1), (detectCardType_prefix s2), H.
    reflexivity.
  - repeat split; reflexivity.
Qed.

Lemma network_detection_total_witness :
  detectCardType (lit "4539578763621486")
  = detectCardType (lit "4511111111111111").
Proof.
  apply (proj1 (proj2 network_detection_total)). reflexivity.
Defined.

(** ** The CVV check *)

Lemma size_app (a b : cstring) : size (a ++ b) = size a + size b.
Proof. unfold size. rewrite length_app. lia. Qed.

Lemma size_dec_digits_S (f : nat) (z : Z) :
  size (dec_digits (S f) z)
  = (if z <? 10 then 0 else size (dec_digits f (z / 10))) + 1.
Proof.
  change (dec_digits (S f) z)
    with ((if z <? 10 then [] else dec_digits f (z / 10))
            ++ [digit_char (z mod 10)]).
  rewrite size_app. destruct (z <? 10); reflexivity.
Qed.

Lemma size_nonneg (s : cstring) : 0 <= size s.
Proof. unfold size. lia. Qed.

(** The length of the decimal text of a non-negative [int]: three exactly
    for 100..999, four exactly for 1000..9999. *)
Lemma size_to_string_nonneg (z : Z) :
  0 <= z ->
  (size (to_string z) = 3 <-> 100 <= z <= 999)
  /\ (size (to_string z) = 4 <-> 1000 <= z <= 9999).
Proof.
  intros H0. unfold to_string.
  destruct (Z.ltb_spec z 0) as [Hn|_]; [lia|].
  do 5 rewrite size_dec_digits_S.
  pose proof (size_nonneg (dec_digits 5 (z / 10 / 10 / 10 / 10 / 10))) as P.
  rewrite !Z.div_div in * by lia. simpl Z.mul in *.
  remember (size (dec_digits 5 (z / 100000))) as rest eqn:Er. clear Er.
  destruct (Z.ltb_spec z 10);
    destruct (Z.ltb_spec (z / 10) 10);
    destruct (Z.ltb_spec (z / 100) 10);
    destruct (Z.ltb_spec (z / 1000) 10);
    destruct (Z.ltb_spec (z / 10000) 10);
    Z.to_euclidean_division_equations; lia.
Qed.

Lemma isCVVValid_rule (c : CreditCard) :
  isCVVValid c = true
  <-> (cardType c = lit "American Express"
       /\ size (to_string (cvv c)) = 4)
      \/ (cardType c <> lit "American Express"
          /\ size (to_string (cvv c)) = 3).
Proof.
  unfold isCVVValid.
  destruct (eqb_cstring_spec (cardType c) (lit "American Express")) as [E|E];
    simpl negb; cbv beta iota;
    [destruct (Z.eqb_spec (size (to_string (cvv c))) 4)
    |destruct (Z.eqb_spec (size (to_string (cvv c))) 3)];
    simpl; split; intros H; try discriminate H; try reflexivity; tauto.
Qed.

(** ** Running the member functions *)

Ltac run_step :=
  cbv beta iota zeta
      delta [bind lift enter print eprint fwrite ret throw
             cout cerr card_log stages].

Lemma maskCardNumber_ok (c : CreditCard) :
  4 <= size (cardNumber c) < 2 ^ 64 ->
  maskCardNumber c = Ok (lit "XXXX-XXXX-XXXX-" ++ last4 (cardNumber c)).
Proof.
  intros H. unfold maskCardNumber, substr_from, size_t_wrap, last4.
  rewrite Z.mod_small by lia.
  destruct (Z.gtb_spec (size (cardNumber c) - 4) (size (cardNumber c)));
    [lia|reflexivity].
Qed.

Lemma parse_expiry_throws (expiry : cstring) (e : exn) :
  parse_expiry expiry = Throw e ->
  e = std_out_of_range \/ e = std_invalid_argument.
Proof.
  unfold parse_expiry, bind_result, substr, stoi.
  destruct (0 >? size expiry); [intros H; inversion H; auto|].
  destruct (scan_int _); [|intros H; inversion H; auto].
  destruct (_ || _); [intros H; inversion H; auto|].
  destruct (3 >? size expiry); [intros H; inversion H; auto|].
  destruct (scan_int _); [|intros H; inversion H; auto].
  destruct (_ || _); [intros H; inversion H; auto|].
  discriminate.
Qed.

(** [checkExpiry] either prints one status line or throws what a
    conversion throws, having printed nothing. *)
Lemma checkExpiry_run (env : Env) (c : CreditCard) (w : World) :
  checkExpiry env c w =
  match parse_expiry (expiryDate c) with
  | Ok (m, y) =>
      (Ok tt,
       mkWorld
         ((cout w ++ status_line
             (expiryStatus m y (Int.add (tm_mon env) 1)
                           (Int.add (tm_year env) 1900))) ++ nl)
         (cerr w) (card_log w) (stages w ++ [StExpiry]))
  | Throw e =>
      (Throw e, mkWorld (cout w) (cerr w) (card_log w)
                        (stages w ++ [StExpiry]))
  end.
Proof.
  unfold checkExpiry, parse_expiry, bind_result. run_step.
  destruct (substr (expiryDate c) 0 2) as [mm|e]; [|reflexivity].
  destruct (stoi mm) as [m|e]; [|reflexivity].
  destruct (substr (expiryDate c) 3 2) as [yy|e]; [|reflexivity].
  destruct (stoi (lit "20" ++ yy)) as [y|e]; reflexivity.
Qed.

Lemma logToFile_run (c : CreditCard) (w : World) :
  4 <= size (cardNumber c) < 2 ^ 64 ->
  logToFile c w =
  (Ok tt, mkWorld (cout w) (cerr w) (card_log w ++ log_block c)
                  (stages w ++ [StLog])).
Proof.
  intros H. unfold logToFile. run_step.
  rewrite maskCardNumber_ok by assumption.
  unfold log_block. rewrite <- !app_assoc. reflexivity.
Qed.

Lemma displayCardInfo_run (env : Env) (c : CreditCard) (w : World) :
  4 <= size (cardNumber c) < 2 ^ 64 ->
  displayCardInfo env c w =
  (checkExpiry env (set_cardType c (spec_network (cardNumber c))) ;;
   logToFile (set_cardType c (spec_network (cardNumber c))) ;;
   ret (set_cardType c (spec_network (cardNumber c))))
    (mkWorld
       (cout w ++ card_text (set_cardType c (spec_network (cardNumber c))))
       (cerr w) (card_log w) (stages w ++ [StDetect; StCVV])).
Proof.
  intros H. unfold displayCardInfo. run_step.
  rewrite maskCardNumber_ok by assumption.
  rewrite detectCardType_spec.
  unfold card_text. rewrite <- !app_assoc. reflexivity.
Qed.

Lemma cardRiskScore_run (env : Env) (w : World) :
  cardRiskScore env w =
  (Ok tt, mkWorld (cout w ++ risk_text env) (cerr w) (card_log w)
                  (stages w ++ [StRisk])).
Proof.
  unfold cardRiskScore, risk_text. run_step.
  rewrite <- !app_assoc. reflexivity.
Qed.

Lemma bad_length_false (s : cstring) :
  bad_length s = false <-> 13 <= size s <= 19.
Proof.
  unfold bad_length. rewrite orb_false_iff.
  destruct (Z.ltb_spec (size s) 13); destruct (Z.gtb_spec (size s) 19);
    split; intros; try lia; try tauto; intuition discriminate.
Qed.

Lemma bad_length_true (s : cstring) :
  bad_length s = true <-> size s < 13 \/ size s > 19.
Proof.
  unfold bad_length. rewrite orb_true_iff.
  destruct (Z.ltb_spec (size s) 13); destruct (Z.gtb_spec (size s) 19);
    split; intros; try lia; try tauto; intuition discriminate.
Qed.

(** ** The whole run *)

(** The [try] block, as a function of the input: how it ends, and what it
    leaves on the output, in the log and in the record of stages.  It
    writes nothing to the error stream. *)
Lemma main_try_spec (env : Env) (inp : Input) (w : World) :
  main_try env inp w =
  (outcome inp,
   mkWorld (cout w ++ prompt_text ++ run_text env inp)
           (cerr w)
           (card_log w ++ log_text inp)
           (stages w ++ stages_reached inp)).
Proof.
  destruct w as [out err log sts].
  unfold main_try, outcome, run_text, log_text, stages_reached, outcome.
  fold (bad_length (in_number inp)).
  destruct (bad_length (in_number inp)) eqn:Eb.
  - run_step. unfold prompt_text.
    rewrite <- !app_assoc, !app_nil_r. reflexivity.
  - apply bad_length_false in Eb.
    change (cardNumber (CreditCard_new (in_number inp) (in_expiry inp)
                          (in_holder inp)
                          (cin_read_int (cvv_uninit inp) (in_cvv inp))))
      with (in_number inp).
    destruct (validateCardNumber (in_number inp)) eqn:Ev; simpl negb.
    + run_step.
      rewrite displayCardInfo_run
        by (cbv [cardNumber CreditCard_new]; lia).
      set (c' := set_cardType _ _).
      assert (c' = card_of inp) as Ec by reflexivity.
      rewrite Ec. clear Ec c'.
      run_step. rewrite checkExpiry_run.
      change (expiryDate (card_of inp)) with (in_expiry inp).
      destruct (parse_expiry (in_expiry inp)) as [[m y]|e].
      * rewrite logToFile_run
          by (cbv [card_of cardNumber set_cardType CreditCard_new]; lia).
        rewrite cardRiskScore_run. run_step.
        unfold prompt_text. rewrite <- !app_assoc. reflexivity.
      * run_step. unfold prompt_text.
        rewrite <- !app_assoc, !app_nil_r. reflexivity.
    + run_step. unfold prompt_text.
      rewrite <- !app_assoc, !app_nil_r. reflexivity.
Qed.

Lemma main_spec (env : Env) (inp : Input) (w : World) :
  main env inp w =
  (0,
   mkWorld (cout w ++ prompt_text ++ run_text env inp)
           (cerr w ++ err_text inp)
           (card_log w ++ log_text inp)
           (stages w ++ stages_reached inp)).
Proof.
  destruct w as [out err log sts].
  unfold main. rewrite main_try_spec. unfold err_text.
  destruct (outcome inp) as [[]|[msg| |]]; run_step; unfold report;
    rewrite <- ?app_assoc, ?app_nil_r; reflexivity.
Qed.

Lemma isCVVValid_false (c : CreditCard) :
  size (to_string (cvv c)) <> 3 -> size (to_string (cvv c)) <> 4 ->
  isCVVValid c = false.
Proof.
  intros H3 H4. destruct (isCVVValid c) eqn:E; [|reflexivity].
  apply isCVVValid_rule in E. tauto.
Qed.

(** C4 (fails on the code). The CVV is kept as an [int], so the check
    measures the length of the decimal text of the stored number, not the
    number of digits typed.  On the American Express number 371449635398431
    the four-digit CVV "0123" is stored as 123 and reported invalid; on the
    Visa number 4539578763621486 the text "-45", which has two digits, is
    stored as -45, whose text has three characters, and is reported
    valid. *)
Theorem cvv_rule_fails_on_typed_cvv :
  (validateCardNumber (lit "371449635398431") = true
   /\ detectCardType (lit "371449635398431") = Ok (lit "American Express")
   /\ typed_digit_count (lit "0123") = 4
   /\ forall g : Z,
        let c := card_of (mkInput (lit "371449635398431") (lit "12/30")
                                  (lit "A B") (lit "0123") g) in
        cardType c = lit "American Express"
        /\ cvv c = 123
        /\ to_string (cvv c) = lit "123"
        /\ isCVVValid c = false)
  /\ (validateCardNumber (lit "4539578763621486") = true
      /\ detectCardType (lit "4539578763621486") = Ok (lit "Visa")
      /\ typed_digit_count (lit "-45") = 2
      /\ forall g : Z,
           let c := card_of (mkInput (lit "4539578763621486") (lit "12/30")
                                     (lit "A B") (lit "-45") g) in
           cardType c = lit "Visa"
           /\ cvv c = - 45
           /\ to_string (cvv c) = lit "-45"
           /\ isCVVValid c = true).
Proof.
  split; (split; [reflexivity|split; [reflexivity|split; [reflexivity|]]]);
    intros g c; repeat split; reflexivity.
Qed.

(** The CVV status is advisory: how the run ends, which stages it reaches
    and the exit status depend neither on the CVV text nor on the value the
    variable held before the read, and after an accepted number the expiry
    stage follows the CVV stage whatever the status. *)
Lemma cvv_status_never_aborts :
  (forall (env : Env) (inp : Input) (w : World) (cvv' : cstring) (g' : Z),
      let inp' := mkInput (in_number inp) (in_expiry inp)
                          (in_holder inp) cvv' g' in
      fst (main_try env inp w) = fst (main_try env inp' w)
      /\ stages (snd (main_try env inp w))
         = stages (snd (main_try env inp' w))
      /\ fst (main env inp w) = fst (main env inp' w))
  /\ (forall (env : Env) (inp : Input) (w : World),
         13 <= size (in_number inp) <= 19 ->
         validateCardNumber (in_number inp) = true ->
         exists rest,
           stages (snd (main_try env inp w))
           = stages w
             ++ [StConstruct; StLuhn; StDetect; StCVV; StExpiry] ++ rest).
Proof.
  split.
  - intros env inp w cvv' g' inp'.
    rewrite !main_try_spec, !main_spec. repeat split.
  - intros env inp w Hlen Hv.
    rewrite main_try_spec. cbn [snd stages]. unfold stages_reached.
    apply bad_length_false in Hlen. rewrite Hlen, Hv. simpl negb.
    cbv iota. eexists. reflexivity.
Qed.

(** The value [cin >> cvv] stores for a three-character CVV text with a
    leading zero. *)
Lemma istream_int_leading_zero (a b : ascii) :
  isdigit a = true -> isdigit b = true ->
  istream_int ["0"%char; a; b] = 10 * digit_value a + digit_value b.
Proof.
  intros Ha Hb.
  pose proof (isdigit_range a Ha). pose proof (isdigit_range b Hb).
  unfold istream_int, scan_int.
  change (drop_while isspace ["0"%char; a; b]) with ["0"%char; a; b].
  cbv beta iota.
  change (Ascii.eqb "0" "-") with false.
  change (Ascii.eqb "0" "+") with false. cbv iota.
  change (take_while isdigit ["0"%char; a; b])
    with ("0"%char :: (if isdigit a
                       then a :: (if isdigit b then [b] else [])
                       else [])).
  rewrite Ha, Hb. cbv iota.
  change (fold_left (fun acc c => acc * 10 + (code c - 48))
                    ["0"%char; a; b] 0)
    with (((0 * 10 + (code "0" - 48)) * 10 + digit_value a) * 10
          + digit_value b).
  change (code "0") with 48.
  unfold Int.INT_MIN, Int.INT_MAX.
  destruct (Z.ltb_spec (((0 * 10 + (48 - 48)) * 10 + digit_value a) * 10
                        + digit_value b) (- 2 ^ 31)); [lia|].
  destruct (Z.gtb_spec (((0 * 10 + (48 - 48)) * 10 + digit_value a) * 10
                        + digit_value b) (2 ^ 31 - 1)); lia.
Qed.

(** Every three-digit CVV text with a leading zero is reported invalid,
    whatever the network. *)
Lemma cvv_leading_zero_invalid (c : CreditCard) (a b : ascii) :
  isdigit a = true -> isdigit b = true ->
  cvv c = istream_int ["0"%char; a; b] ->
  isCVVValid c = false.
Proof.
  intros Ha Hb Hc.
  pose proof (isdigit_range a Ha). pose proof (isdigit_range b Hb).
  rewrite istream_int_leading_zero in Hc by assumption.
  apply isCVVValid_false; intros E;
    apply size_to_string_nonneg in E; lia.
Qed.

(** C5 (fails on the code). The CVV is stored as an [int]: the text "045"
    is read as 45, whose decimal text has two characters, so on a Visa card
    the three-digit CVV "045" is reported invalid. *)
Theorem cvv_leading_zero_lost :
  detectCardType (lit "4539578763621486") = Ok (lit "Visa")
  /\ istream_int (lit "045") = 45
  /\ to_string (istream_int (lit "045")) = lit "45"
  /\ (forall g : Z,
         size (to_string
                 (cvv (card_of (mkInput (lit "4539578763621486")
                                        (lit "12/30") (lit "A B")
                                        (lit "045") g)))) = 2)
  /\ isCVVValid (mkCard (lit "4539578763621486") (lit "12/30") (lit "A B")
                        (lit "Visa") (istream_int (lit "045"))) = false.
Proof. repeat split; reflexivity. Qed.

(** ** Error handling *)

Lemma outcome_length_error (inp : Input) :
  outcome inp = Throw (CardException msg_length)
  <-> bad_length (in_number inp) = true.
Proof.
  unfold outcome. destruct (bad_length (in_number inp)).
  - tauto.
  - split; [|discriminate].
    destruct (validateCardNumber (in_number inp)); simpl negb; cbv iota.
    + destruct (parse_expiry (in_expiry inp)) as [p|e] eqn:E;
        [discriminate|].
      intros H. apply parse_expiry_throws in E.
      destruct E; subst e; discriminate H.
    + intros H. vm_compute in H. discriminate H.
Qed.

(** C6. The length test throws the length error exactly when the number is
    shorter than 13 or longer than 19 characters, and then nothing else has
    happened: no card object was built, no stage was entered, nothing
    beyond the prompts was printed and the log is untouched. *)
Theorem format_guard_first :
  forall (env : Env) (inp : Input) (w : World),
    (fst (main_try env inp w) = Throw (CardException msg_length)
     <-> size (in_number inp) < 13 \/ size (in_number inp) > 19)
    /\ (size (in_number inp) < 13 \/ size (in_number inp) > 19 ->
        main_try env inp w
        = (Throw (CardException msg_length),
           mkWorld (cout w ++ prompt_text) (cerr w) (card_log w) (stages w))
        /\ main env inp w
           = (0, mkWorld (cout w ++ prompt_text)
                         (cerr w ++ msg_length ++ nl)
                         (card_log w) (stages w))).
Proof.
  intros env inp w. split.
  - rewrite main_try_spec. cbn [fst].
    rewrite outcome_length_error. apply bad_length_true.
  - intros H. apply bad_length_true in H.
    rewrite main_spec, main_try_spec.
    unfold err_text, log_text, outcome, run_text, stages_reached.
    rewrite H. cbv iota. unfold report. rewrite !app_nil_r.
    split; reflexivity.
Qed.

Lemma format_guard_first_witness :
  main (mkEnv 5 124 7)
       (mkInput (lit "1234") (lit "12/30") (lit "A B") (lit "123") 0)
       (mkWorld [] [] [] [])
  = (0, mkWorld ([] ++ prompt_text) ([] ++ msg_length ++ nl) [] []).
Proof.
  apply (proj2 (format_guard_first
                  (mkEnv 5 124 7)
                  (mkInput (lit "1234") (lit "12/30") (lit "A B")
                           (lit "123") 0)
                  (mkWorld [] [] [] []))).
  left. vm_compute. reflexivity.
Defined.

(** C7. When the number has an accepted length but fails the Luhn check,
    the run ends with the Luhn error right after the check: no network,
    CVV or expiry output is printed, no later stage is entered, and the log
    file is as it was. *)
Theorem luhn_failure_aborts :
  forall (env : Env) (inp : Input) (w : World),
    13 <= size (in_number inp) <= 19 ->
    validateCardNumber (in_number inp) = false ->
    main_try env inp w
    = (Throw (CardException msg_luhn),
       mkWorld (cout w ++ prompt_text) (cerr w) (card_log w)
               (stages w ++ [StConstruct; StLuhn]))
    /\ main env inp w
       = (0, mkWorld (cout w ++ prompt_text) (cerr w ++ msg_luhn ++ nl)
                     (card_log w) (stages w ++ [StConstruct; StLuhn])).
Proof.
  intros env inp w Hlen Hv. apply bad_length_false in Hlen.
  rewrite main_spec, main_try_spec.
  unfold err_text, log_text, outcome, run_text, stages_reached.
  rewrite Hlen, Hv. simpl negb. cbv iota. unfold report.
  rewrite !app_nil_r. split; reflexivity.
Qed.

Lemma luhn_failure_aborts_witness :
  main (mkEnv 5 124 7)
       (mkInput (lit "4539578763621487") (lit "12/30") (lit "A B")
                (lit "123") 0)
       (mkWorld [] [] (lit "earlier entries") [])
  = (0, mkWorld ([] ++ prompt_text) ([] ++ msg_luhn ++ nl)
                (lit "earlier entries") ([] ++ [StConstruct; StLuhn])).
Proof.
  apply (luhn_failure_aborts
           (mkEnv 5 124 7)
           (mkInput (lit "4539578763621487") (lit "12/30") (lit "A B")
                    (lit "123") 0)
           (mkWorld [] [] (lit "earlier entries") [])).
  - unfold size. simpl. lia.
  - reflexivity.
Defined.

(** C9. Whatever the input and whichever way the [try] block ends, [main]
    returns 0; an exception only adds its message and a newline to the
    error stream (the card exception's own text, or the fixed text for any
    other exception), and a normal end adds nothing there. *)
Theorem exit_status_zero :
  forall (env : Env) (inp : Input) (w : World),
    fst (main env inp w) = 0
    /\ (forall e : exn,
           fst (main_try env inp w) = Throw e ->
           cerr (snd (main env inp w)) = cerr w ++ report e ++ nl)
    /\ (fst (main_try env inp w) = Ok tt ->
        cerr (snd (main env inp w)) = cerr w).
Proof.
  intros env inp w. rewrite main_spec, main_try_spec. cbn [fst snd cerr].
  unfold err_text. split; [reflexivity|split].
  - intros e H. rewrite H. reflexivity.
  - intros H. rewrite H. apply app_nil_r.
Qed.

Lemma exit_status_zero_witness :
  cerr (snd (main (mkEnv 5 124 7)
                  (mkInput (lit "4539578763621486") (lit "12") (lit "A B")
                           (lit "123") 0)
                  (mkWorld [] [] [] [])))
  = [] ++ report std_out_of_range ++ nl.
Proof.
  apply (proj1 (proj2 (exit_status_zero
                         (mkEnv 5 124 7)
                         (mkInput (lit "4539578763621486") (lit "12")
                                  (lit "A B") (lit "123") 0)
                         (mkWorld [] [] [] [])))).
  vm_compute. reflexivity.
Defined.

(** * Further properties of the code *)

(** ** What the Luhn check detects *)

Lemma code_inj (a b : ascii) : code a = code b -> a = b.
Proof.
  unfold code. intros H. apply N2Z.inj in H.
  rewrite <- (ascii_N_embedding a), <- (ascii_N_embedding b), H.
  reflexivity.
Qed.

Lemma digit_value_inj (a b : ascii) : digit_value a = digit_value b -> a = b.
Proof. unfold digit_value. intros H. apply code_inj. lia. Qed.

Lemma digit_char_value (k : Z) :
  0 <= k <= 9 ->
  isdigit (digit_char k) = true /\ digit_value (digit_char k) = k.
Proof.
  intros H.
  assert (k = 0 \/ k = 1 \/ k = 2 \/ k = 3 \/ k = 4 \/ k = 5 \/ k = 6
          \/ k = 7 \/ k = 8 \/ k = 9) as C by lia.
  repeat (destruct C as [C|C]; [subst k; split; reflexivity|]).
  subst k. split; reflexivity.
Qed.

Lemma alt_doubled_sum_step (d : Z) (r : list Z) (b : bool) :
  alt_doubled_sum (d :: r) b = luhn_digit d b + alt_doubled_sum r (negb b).
Proof. reflexivity. Qed.

Lemma alt_doubled_sum_app (a b : list Z) (f : bool) :
  alt_doubled_sum (a ++ b) f =
  alt_doubled_sum a f
  + alt_doubled_sum b (xorb f (Nat.odd (List.length a))).
Proof.
  revert f. induction a as [|d a IH]; intros f.
  - simpl. rewrite xorb_false_r. reflexivity.
  - change ((d :: a) ++ b) with (d :: (a ++ b)).
    rewrite !alt_doubled_sum_step, IH.
    change (List.length (d :: a)) with (S (List.length a)).
    rewrite Nat.odd_succ, <- Nat.negb_odd.
    destruct f; destruct (Nat.odd (List.length a)); simpl xorb; lia.
Qed.

(** The sum of a string with one character singled out: the characters to
    its right, the character itself, the characters to its left. *)
Lemma luhn_sum_split (l1 l2 : cstring) (c : ascii) :
  luhn_sum (l1 ++ c :: l2) =
  alt_doubled_sum (rev (map digit_value l2)) false
  + luhn_digit (digit_value c) (Nat.odd (List.length l2))
  + alt_doubled_sum (rev (map digit_value l1))
                    (negb (Nat.odd (List.length l2))).
Proof.
  unfold luhn_sum.
  rewrite map_app. change (map digit_value (c :: l2))
    with (digit_value c :: map digit_value l2).
  rewrite rev_app_distr.
  change (rev (digit_value c :: map digit_value l2))
    with (rev (map digit_value l2) ++ [digit_value c]).
  rewrite <- app_assoc, alt_doubled_sum_app.
  change ([digit_value c] ++ rev (map digit_value l1))
    with (digit_value c :: rev (map digit_value l1)).
  rewrite alt_doubled_sum_step, length_rev, length_map.
  rewrite xorb_false_l. lia.
Qed.

Lemma luhn_digit_range (d : Z) (f : bool) :
  0 <= d <= 9 -> 0 <= luhn_digit d f <= 9.
Proof.
  intros H. unfold luhn_digit.
  destruct f; [destruct (Z.gtb_spec (2 * d) 9)|]; lia.
Qed.

Lemma luhn_digit_inj (d d' : Z) (f : bool) :
  0 <= d <= 9 -> 0 <= d' <= 9 ->
  luhn_digit d f = luhn_digit d' f -> d = d'.
Proof.
  intros H H'. unfold luhn_digit.
  destruct f; [|tauto].
  destruct (Z.gtb_spec (2 * d) 9); destruct (Z.gtb_spec (2 * d') 9); lia.
Qed.

Lemma luhn_sum_nonneg (s : cstring) : all_digits s -> 0 <= luhn_sum s.
Proof.
  intros H. unfold luhn_sum. apply alt_doubled_sum_nonneg.
  apply Forall_rev. apply Forall_map.
  eapply Forall_impl; [|exact H].
  intros c Hc. apply isdigit_range in Hc. lia.
Qed.

(** For digit strings whose sum cannot overflow, the result of the check
    is whether the Luhn sum is 0 modulo 10. *)
Lemma validateCardNumber_mod (s : cstring) :
  all_digits s -> 9 * size s <= Int.INT_MAX ->
  (validateCardNumber s = true <-> luhn_sum s mod 10 = 0).
Proof.
  intros Hd Hb. rewrite validateCardNumber_sum by assumption.
  pose proof (luhn_sum_nonneg s Hd).
  unfold Int.rem. rewrite Z.rem_mod_nonneg by lia. apply Z.eqb_eq.
Qed.

Lemma all_digits_app (a b : cstring) :
  all_digits (a ++ b) <-> all_digits a /\ all_digits b.
Proof. unfold all_digits. apply Forall_app. Qed.

Lemma all_digits_replace (l1 l2 : cstring) (c c' : ascii) :
  all_digits (l1 ++ c :: l2) -> isdigit c' = true ->
  all_digits (l1 ++ c' :: l2).
Proof.
  intros H Hc'. apply all_digits_app in H. destruct H as [H1 H2].
  apply all_digits_app. split; [assumption|].
  inversion H2; subst. constructor; assumption.
Qed.

Lemma size_replace (l1 l2 : cstring) (c c' : ascii) :
  size (l1 ++ c' :: l2) = size (l1 ++ c :: l2).
Proof. unfold size. rewrite !length_app. reflexivity. Qed.

(** The Luhn check detects every single-digit error: in a digit string that
    passes, replacing any one digit by a different digit gives a string
    that fails. *)
Theorem luhn_detects_single_digit_error :
  forall (l1 l2 : cstring) (c c' : ascii),
    all_digits (l1 ++ c :: l2) -> isdigit c' = true -> c <> c' ->
    9 * size (l1 ++ c :: l2) <= Int.INT_MAX ->
    validateCardNumber (l1 ++ c :: l2) = true ->
    validateCardNumber (l1 ++ c' :: l2) = false.
Proof.
  intros l1 l2 c c' Hd Hc' Hne Hb Hv.
  pose proof (all_digits_replace l1 l2 c c' Hd Hc') as Hd'.
  apply validateCardNumber_mod in Hv; try assumption.
  destruct (validateCardNumber (l1 ++ c' :: l2)) eqn:E; [|reflexivity].
  apply validateCardNumber_mod in E;
    [|assumption|rewrite (size_replace l1 l2 c c'); assumption].
  exfalso. apply Hne. apply digit_value_inj.
  rewrite luhn_sum_split in Hv, E.
  assert (isdigit c = true) as Hc.
  { apply all_digits_app in Hd. destruct Hd as [_ Hd].
    inversion Hd; assumption. }
  pose proof (isdigit_range c Hc) as R.
  pose proof (isdigit_range c' Hc') as R'.
  set (f := Nat.odd (List.length l2)) in *.
  pose proof (luhn_digit_range (digit_value c) f R) as P.
  pose proof (luhn_digit_range (digit_value c') f R') as P'.
  apply (luhn_digit_inj _ _ f); try assumption.
  remember (luhn_digit (digit_value c) f) as x.
  remember (luhn_digit (digit_value c') f) as x'.
  remember (alt_doubled_sum (rev (map digit_value l2)) false) as A.
  remember (alt_doubled_sum (rev (map digit_value l1)) (negb f)) as B.
  clear - Hv E P P'.
  Z.to_euclidean_division_equations. lia.
Qed.

Lemma luhn_detects_single_digit_error_witness :
  validateCardNumber (lit "45395787" ++ "1"%char :: lit "3621486") = false.
Proof.
  apply (luhn_detects_single_digit_error
           (lit "45395787") (lit "3621486") "6"%char "1"%char).
  - repeat constructor.
  - reflexivity.
  - discriminate.
  - unfold size, Int.INT_MAX. simpl. lia.
  - reflexivity.
Defined.

Lemma luhn_sum_snoc (p : cstring) (d : ascii) :
  luhn_sum (p ++ [d]) =
  digit_value d + alt_doubled_sum (rev (map digit_value p)) true.
Proof.
  rewrite luhn_sum_split.
  change (map digit_value []) with (@nil Z).
  change (rev (@nil Z)) with (@nil Z).
  change (List.length (@nil ascii)) with O.
  change (Nat.odd 0) with false. simpl negb.
  unfold luhn_digit. simpl alt_doubled_sum at 1. lia.
Qed.

(** Every digit payload has exactly one check digit: appending
    [check_digit payload] gives a string that passes, and no other digit
    does. *)
Theorem luhn_check_digit_unique :
  forall (payload : cstring) (d : ascii),
    all_digits payload -> isdigit d = true ->
    9 * (size payload + 1) <= Int.INT_MAX ->
    (validateCardNumber (payload ++ [d]) = true
     <-> d = check_digit payload).
Proof.
  intros p d Hp Hd Hb.
  assert (all_digits (p ++ [d])) as Hall.
  { apply all_digits_app. split; [assumption|].
    constructor; [assumption|constructor]. }
  assert (size (p ++ [d]) = size p + 1) as Hs
    by (rewrite size_app; reflexivity).
  rewrite validateCardNumber_mod by (assumption || (rewrite Hs; lia)).
  rewrite luhn_sum_snoc. unfold check_digit.
  remember (alt_doubled_sum (rev (map digit_value p)) true) as S eqn:ES.
  pose proof (isdigit_range d Hd) as R.
  pose proof (Z.mod_pos_bound (- S) 10 ltac:(lia)) as M.
  destruct (digit_char_value ((- S) mod 10) ltac:(lia)) as [_ V].
  split.
  - intros H. apply digit_value_inj. rewrite V.
    clear - H R M. Z.to_euclidean_division_equations. lia.
  - intros H. rewrite H, V.
    clear - M. Z.to_euclidean_division_equations. lia.
Qed.

Lemma luhn_check_digit_unique_witness :
  validateCardNumber (lit "453957876362148" ++ ["6"%char]) = true
  <-> "6"%char = check_digit (lit "453957876362148").
Proof.
  apply (luhn_check_digit_unique (lit "453957876362148") "6"%char).
  - repeat constructor.
  - reflexivity.
  - unfold size, Int.INT_MAX. simpl. lia.
Defined.

Lemma fold_luhn_no_digit (l : cstring) (st : Z * bool) :
  Forall (fun c => isdigit c = false) l ->
  fold_left luhn_step l st = st.
Proof.
  revert st. induction l as [|c l IH]; intros st H.
  - reflexivity.
  - inversion H; subst. simpl fold_left.
    rewrite luhn_step_nondigit by assumption. apply IH. assumption.
Qed.

(** A number without any digit character passes the Luhn check (the sum
    stays 0), so a 13 to 19 character text without digits gets through both
    tests of [main], is given the network Unknown and goes on to the CVV
    and expiry stages. *)
Theorem digitless_number_accepted :
  forall (env : Env) (inp : Input) (w : World),
    Forall (fun c => isdigit c = false) (in_number inp) ->
    13 <= size (in_number inp) <= 19 ->
    validateCardNumber (in_number inp) = true
    /\ detectCardType (in_number inp) = Ok (lit "Unknown")
    /\ exists rest,
         stages (snd (main env inp w))
         = stages w ++ [StConstruct; StLuhn; StDetect; StCVV; StExpiry]
           ++ rest.
Proof.
  intros env inp w Hn Hlen.
  assert (validateCardNumber (in_number inp) = true) as Hv.
  { rewrite validateCardNumber_fold by (unfold Int.INT_MAX; lia).
    rewrite fold_luhn_no_digit by (apply Forall_rev; assumption).
    reflexivity. }
  split; [assumption|split].
  - rewrite detectCardType_spec. f_equal. unfold spec_network.
    destruct (in_number inp) as [|c1 [|c2 r]] eqn:E.
    + reflexivity.
    + inversion Hn as [|? ? H1 _]; subst.
      change (lit "4") with ["4"%char].
      change (lit "51") with ["5"; "1"]%char.
      change (lit "52") with ["5"; "2"]%char.
      change (lit "34") with ["3"; "4"]%char.
      change (lit "37") with ["3"; "7"]%char.
      cbn [starts_with].
      destruct (Ascii.eqb_spec "4" c1); [subst; discriminate H1|].
      destruct (Ascii.eqb_spec "5" c1); [subst; discriminate H1|].
      destruct (Ascii.eqb_spec "3" c1); [subst; discriminate H1|].
      reflexivity.
    + inversion Hn as [|? ? H1 _]; subst.
      change (lit "4") with ["4"%char].
      change (lit "51") with ["5"; "1"]%char.
      change (lit "52") with ["5"; "2"]%char.
      change (lit "34") with ["3"; "4"]%char.
      change (lit "37") with ["3"; "7"]%char.
      cbn [starts_with].
      destruct (Ascii.eqb_spec "4" c1); [subst; discriminate H1|].
      destruct (Ascii.eqb_spec "5" c1); [subst; discriminate H1|].
      destruct (Ascii.eqb_spec "3" c1); [subst; discriminate H1|].
      reflexivity.
  - rewrite main_spec. cbn [snd stages]. unfold stages_reached.
    apply bad_length_false in Hlen. rewrite Hlen, Hv. simpl negb.
    cbv iota. eexists. reflexivity.
Qed.

Lemma digitless_number_accepted_witness :
  validateCardNumber (lit "not-a-number!") = true
  /\ detectCardType (lit "not-a-number!") = Ok (lit "Unknown")
  /\ exists rest,
       stages (snd (main (mkEnv 5 124 7)
                         (mkInput (lit "not-a-number!") (lit "12/30")
                                  (lit "A B") (lit "123") 0)
                         (mkWorld [] [] [] [])))
       = [] ++ [StConstruct; StLuhn; StDetect; StCVV; StExpiry] ++ rest.
Proof.
  apply (digitless_number_accepted
           (mkEnv 5 124 7)
           (mkInput (lit "not-a-number!") (lit "12/30") (lit "A B")
                    (lit "123") 0)
           (mkWorld [] [] [] [])).
  - repeat constructor.
  - unfold size. simpl. lia.
Defined.

(** The sum of a string with two neighbouring characters singled out. *)
Lemma luhn_sum_split2 (l1 l2 : cstring) (a b : ascii) :
  luhn_sum (l1 ++ a :: b :: l2) =
  alt_doubled_sum (rev (map digit_value l2)) false
  + luhn_digit (digit_value b) (Nat.odd (List.length l2))
  + luhn_digit (digit_value a) (negb (Nat.odd (List.length l2)))
  + alt_doubled_sum (rev (map digit_value l1)) (Nat.odd (List.length l2)).
Proof.
  rewrite luhn_sum_split.
  change (List.length (b :: l2)) with (S (List.length l2)).
  rewrite Nat.odd_succ, <- Nat.negb_odd, negb_involutive.
  change (map digit_value (b :: l2))
    with (digit_value b :: map digit_value l2).
  change (rev (digit_value b :: map digit_value l2))
    with (rev (map digit_value l2) ++ [digit_value b]).
  rewrite alt_doubled_sum_app, length_rev, length_map, xorb_false_l.
  rewrite alt_doubled_sum_step. simpl alt_doubled_sum. lia.
Qed.

(** The Luhn check detects the exchange of two neighbouring digits, except
    for the pair 0 and 9: in a digit string that passes, swapping two
    different adjacent digits other than 0 with 9 gives a string that
    fails. *)
Theorem luhn_detects_adjacent_swap :
  forall (l1 l2 : cstring) (a b : ascii),
    all_digits (l1 ++ a :: b :: l2) -> a <> b ->
    ~ (a = "0"%char /\ b = "9"%char) -> ~ (a = "9"%char /\ b = "0"%char) ->
    9 * size (l1 ++ a :: b :: l2) <= Int.INT_MAX ->
    validateCardNumber (l1 ++ a :: b :: l2) = true ->
    validateCardNumber (l1 ++ b :: a :: l2) = false.
Proof.
  intros l1 l2 a b Hd Hne H09 H90 Hb Hv.
  assert (isdigit a = true /\ isdigit b = true) as [Ha Hbd].
  { apply all_digits_app in Hd. destruct Hd as [_ Hd].
    inversion Hd as [|? ? ? Hd']; subst. inversion Hd'; subst. tauto. }
  assert (all_digits (l1 ++ b :: a :: l2)) as Hd2.
  { apply all_digits_app in Hd. destruct Hd as [H1 H2].
    apply all_digits_app. split; [assumption|].
    inversion H2 as [|? ? ? H3]; subst. inversion H3; subst.
    repeat constructor; assumption. }
  assert (size (l1 ++ b :: a :: l2) = size (l1 ++ a :: b :: l2)) as Hs
    by (unfold size; rewrite !length_app; reflexivity).
  apply validateCardNumber_mod in Hv; try assumption.
  destruct (validateCardNumber (l1 ++ b :: a :: l2)) eqn:E; [|reflexivity].
  apply validateCardNumber_mod in E; [|assumption|rewrite Hs; assumption].
  exfalso. rewrite luhn_sum_split2 in Hv, E.
  pose proof (isdigit_range a Ha) as Ra.
  pose proof (isdigit_range b Hbd) as Rb.
  assert (digit_value a <> digit_value b) as Nab
    by (intros X; apply Hne, digit_value_inj, X).
  assert (~ (digit_value a = 0 /\ digit_value b = 9)) as N09.
  { intros [X Y]. apply H09. split; apply digit_value_inj.
    - rewrite X. reflexivity.
    - rewrite Y. reflexivity. }
  assert (~ (digit_value a = 9 /\ digit_value b = 0)) as N90.
  { intros [X Y]. apply H90. split; apply digit_value_inj.
    - rewrite X. reflexivity.
    - rewrite Y. reflexivity. }
  remember (digit_value a) as x. remember (digit_value b) as y.
  remember (alt_doubled_sum (rev (map digit_value l2)) false) as A.
  remember (alt_doubled_sum (rev (map digit_value l1))
                            (Nat.odd (List.length l2))) as B.
  clear - Hv E Ra Rb Nab N09 N90.
  unfold luhn_digit in *.
  destruct (Nat.odd (List.length l2)); simpl negb in *; cbv iota in *;
    destruct (Z.gtb_spec (2 * x) 9); destruct (Z.gtb_spec (2 * y) 9);
    Z.to_euclidean_division_equations; lia.
Qed.

Lemma luhn_detects_adjacent_swap_witness :
  validateCardNumber
    (lit "45395787" ++ "3"%char :: "6"%char :: lit "621486") = false.
Proof.
  apply (luhn_detects_adjacent_swap
           (lit "45395787") (lit "621486") "6"%char "3"%char).
  - repeat constructor.
  - discriminate.
  - intros [H _]. discriminate H.
  - intros [H _]. discriminate H.
  - unfold size, Int.INT_MAX. simpl. lia.
  - reflexivity.
Defined.

(** ** Masking *)

(** For a number of at least four characters the mask is the fixed prefix
    followed by exactly the last four characters of the number, 19
    characters in all whatever the length of the number. *)
Theorem mask_shows_last_four :
  forall c : CreditCard,
    4 <= size (cardNumber c) < 2 ^ 64 ->
    exists hidden shown : cstring,
      cardNumber c = hidden ++ shown
      /\ size shown = 4
      /\ maskCardNumber c = Ok (lit "XXXX-XXXX-XXXX-" ++ shown)
      /\ size (lit "XXXX-XXXX-XXXX-" ++ shown) = 19.
Proof.
  intros c H.
  exists (firstn (Z.to_nat (size (cardNumber c) - 4)) (cardNumber c)).
  exists (last4 (cardNumber c)).
  assert (size (last4 (cardNumber c)) = 4) as Hs.
  { unfold last4, size in *. rewrite length_skipn. lia. }
  repeat split.
  - unfold last4. symmetry. apply firstn_skipn.
  - assumption.
  - apply maskCardNumber_ok. assumption.
  - rewrite size_app, Hs. reflexivity.
Qed.

Lemma mask_shows_last_four_witness :
  exists hidden shown : cstring,
    cardNumber (CreditCard_new (lit "4539578763621486") (lit "12/30")
                               (lit "A B") 123) = hidden ++ shown
    /\ size shown = 4
    /\ maskCardNumber (CreditCard_new (lit "4539578763621486")
                                      (lit "12/30") (lit "A B") 123)
       = Ok (lit "XXXX-XXXX-XXXX-" ++ shown)
    /\ size (lit "XXXX-XXXX-XXXX-" ++ shown) = 19.
Proof.
  apply (mask_shows_last_four
           (CreditCard_new (lit "4539578763621486") (lit "12/30")
                           (lit "A B") 123)).
  unfold size. simpl. lia.
Defined.

(** For a number of fewer than four characters [length() - 4] wraps around
    as a [size_t], so [substr] throws [std::out_of_range]: the mask fails,
    and [displayCardInfo] ends with that exception without touching the
    log. *)
Theorem mask_short_number_throws :
  forall (env : Env) (c : CreditCard) (w : World),
    size (cardNumber c) < 4 ->
    maskCardNumber c = Throw std_out_of_range
    /\ fst (displayCardInfo env c w) = Throw std_out_of_range
    /\ card_log (snd (displayCardInfo env c w)) = card_log w.
Proof.
  intros env c w H.
  assert (maskCardNumber c = Throw std_out_of_range) as Hm.
  { unfold maskCardNumber, substr_from, size_t_wrap.
    pose proof (size_nonneg (cardNumber c)) as P.
    replace ((size (cardNumber c) - 4) mod 2 ^ 64)
      with (size (cardNumber c) - 4 + 2 ^ 64).
    - destruct (Z.gtb_spec (size (cardNumber c) - 4 + 2 ^ 64)
                           (size (cardNumber c))); [reflexivity|lia].
    - apply Z.mod_unique with (q := -1); lia. }
  split; [assumption|].
  unfold displayCardInfo. run_step. rewrite Hm. split; reflexivity.
Qed.

Lemma mask_short_number_throws_witness :
  maskCardNumber (CreditCard_new (lit "123") (lit "12/30") (lit "A B") 123)
  = Throw std_out_of_range
  /\ fst (displayCardInfo (mkEnv 5 124 7)
            (CreditCard_new (lit "123") (lit "12/30") (lit "A B") 123)
            (mkWorld [] [] [] []))
     = Throw std_out_of_range
  /\ card_log (snd (displayCardInfo (mkEnv 5 124 7)
                      (CreditCard_new (lit "123") (lit "12/30") (lit "A B")
                                      123)
                      (mkWorld [] [] [] [])))
     = card_log (mkWorld [] [] [] []).
Proof.
  apply (mask_short_number_throws
           (mkEnv 5 124 7)
           (CreditCard_new (lit "123") (lit "12/30") (lit "A B") 123)
           (mkWorld [] [] [] [])).
  unfold size. simpl. lia.
Defined.

(** ** The values the CVV check accepts *)

Lemma size_dec_digits_small (n : Z) :
  0 <= n ->
  (size (dec_digits 10 n) = 2 <-> 10 <= n <= 99)
  /\ (size (dec_digits 10 n) = 3 <-> 100 <= n <= 999)
  /\ (size (dec_digits 10 n) = 4 <-> 1000 <= n <= 9999).
Proof.
  intros H0.
  do 5 rewrite size_dec_digits_S.
  pose proof (size_nonneg (dec_digits 5 (n / 10 / 10 / 10 / 10 / 10))) as P.
  rewrite !Z.div_div in * by lia. simpl Z.mul in *.
  remember (size (dec_digits 5 (n / 100000))) as rest eqn:Er. clear Er.
  destruct (Z.ltb_spec n 10);
    destruct (Z.ltb_spec (n / 10) 10);
    destruct (Z.ltb_spec (n / 100) 10);
    destruct (Z.ltb_spec (n / 1000) 10);
    destruct (Z.ltb_spec (n / 10000) 10);
    Z.to_euclidean_division_equations; lia.
Qed.

Lemma size_to_string_cases (z : Z) :
  (size (to_string z) = 3 <-> 100 <= z <= 999 \/ - 99 <= z <= - 10)
  /\ (size (to_string z) = 4 <-> 1000 <= z <= 9999 \/ - 999 <= z <= - 100).
Proof.
  unfold to_string. destruct (Z.ltb_spec z 0) as [Hn|Hp].
  - assert (size ("-"%char :: dec_digits 10 (- z))
            = size (dec_digits 10 (- z)) + 1) as E
      by (unfold size; simpl List.length; lia).
    rewrite E.
    destruct (size_dec_digits_small (- z) ltac:(lia)) as [H2 [H3 _]].
    remember (size (dec_digits 10 (- z))) as k eqn:Ek. clear Ek E.
    split.
    + transitivity (k = 2); [lia|]. rewrite H2. lia.
    + transitivity (k = 3); [lia|]. rewrite H3. lia.
  - destruct (size_dec_digits_small z Hp) as [_ [H3 H4]].
    rewrite H3, H4. lia.
Qed.

(** The stored values the CVV check accepts.  The length measured is that
    of the decimal text, which for a negative value includes the sign: an
    American Express card is accepted with 1000..9999 and also with
    -999..-100, any other card with 100..999 and also with -99..-10.  In
    particular 0, the value left by a CVV that is not a number, is never
    accepted. *)
Theorem cvv_accepted_values :
  forall c : CreditCard,
    (isCVVValid c = true
     <-> (cardType c = lit "American Express"
          /\ (1000 <= cvv c <= 9999 \/ - 999 <= cvv c <= - 100))
         \/ (cardType c <> lit "American Express"
             /\ (100 <= cvv c <= 999 \/ - 99 <= cvv c <= - 10)))
    /\ (cvv c = 0 -> isCVVValid c = false).
Proof.
  intros c.
  destruct (size_to_string_cases (cvv c)) as [H3 H4].
  assert (isCVVValid c = true
     <-> (cardType c = lit "American Express"
          /\ (1000 <= cvv c <= 9999 \/ - 999 <= cvv c <= - 100))
         \/ (cardType c <> lit "American Express"
             /\ (100 <= cvv c <= 999 \/ - 99 <= cvv c <= - 10))) as R.
  { rewrite isCVVValid_rule. rewrite H3, H4. tauto. }
  split; [exact R|].
  intros Hz. destruct (isCVVValid c); [|reflexivity].
  destruct R as [R1 _]. specialize (R1 eq_refl). lia.
Qed.

Lemma cvv_accepted_values_witness :
  isCVVValid (mkCard (lit "4539578763621486") (lit "12/30") (lit "A B")
                     (lit "Visa") (istream_int (lit "abc"))) = false.
Proof.
  apply (proj2 (cvv_accepted_values
                  (mkCard (lit "4539578763621486") (lit "12/30")
                          (lit "A B") (lit "Visa")
                          (istream_int (lit "abc"))))).
  reflexivity.
Defined.

(** ** Reading the expiry date *)

Lemma isdigit_not_space (d : ascii) : isdigit d = true -> isspace d = false.
Proof.
  unfold isdigit, isspace. intros H.
  apply andb_true_iff in H. destruct H as [H1 H2].
  apply Z.leb_le in H1. apply Z.leb_le in H2.
  destruct (Z.eqb_spec (code d) 32); [lia|].
  destruct (Z.leb_spec 9 (code d)); destruct (Z.leb_spec (code d) 13);
    simpl; try reflexivity; lia.
Qed.

Lemma isdigit_not_sign (d : ascii) :
  isdigit d = true ->
  Ascii.eqb d "-" = false /\ Ascii.eqb d "+" = false.
Proof.
  intros H. split.
  - destruct (Ascii.eqb_spec d "-"); [subst; discriminate H|reflexivity].
  - destruct (Ascii.eqb_spec d "+"); [subst; discriminate H|reflexivity].
Qed.

(** A text that begins with a digit converts to the number its leading
    digits spell. *)
Lemma scan_int_digit_head (d : ascii) (r : cstring) :
  isdigit d = true ->
  scan_int (d :: r) =
  Some (fold_left (fun acc c => acc * 10 + (code c - 48))
                  (take_while isdigit r) (digit_value d)).
Proof.
  intros H. unfold scan_int.
  change (drop_while isspace (d :: r))
    with (if isspace d then drop_while isspace r else d :: r).
  rewrite (isdigit_not_space d H).
  destruct (isdigit_not_sign d H) as [E1 E2]. rewrite E1, E2.
  change (take_while isdigit (d :: r))
    with (if isdigit d then d :: take_while isdigit r else []).
  rewrite H. reflexivity.
Qed.

Lemma stoi_two_digits (a b : ascii) :
  isdigit a = true -> isdigit b = true ->
  stoi [a; b] = Ok (10 * digit_value a + digit_value b).
Proof.
  intros Ha Hb. unfold stoi. rewrite scan_int_digit_head by assumption.
  change (take_while isdigit [b]) with (if isdigit b then [b] else []).
  rewrite Hb.
  change (fold_left (fun acc c => acc * 10 + (code c - 48)) [b]
                    (digit_value a))
    with (digit_value a * 10 + digit_value b).
  pose proof (isdigit_range a Ha). pose proof (isdigit_range b Hb).
  unfold Int.INT_MIN, Int.INT_MAX.
  destruct (Z.ltb_spec (digit_value a * 10 + digit_value b) (- 2 ^ 31));
    [lia|].
  destruct (Z.gtb_spec (digit_value a * 10 + digit_value b) (2 ^ 31 - 1));
    [lia|].
  simpl orb. cbv iota. f_equal; lia.
Qed.

(** The year text always begins with the digits "20", so its conversion
    cannot fail; what follows them decides the value. *)
Lemma stoi_year (yy : cstring) :
  (List.length yy <= 2)%nat ->
  stoi (lit "20" ++ yy) =
  match yy with
  | a :: b :: _ =>
      if isdigit a
      then (if isdigit b
            then Ok (2000 + 10 * digit_value a + digit_value b)
            else Ok (200 + digit_value a))
      else Ok 20
  | [a] => if isdigit a then Ok (200 + digit_value a) else Ok 20
  | [] => Ok 20
  end.
Proof.
  intros Hlen.
  change (lit "20" ++ yy) with ("2"%char :: "0"%char :: yy).
  unfold stoi. rewrite scan_int_digit_head by reflexivity.
  change (take_while isdigit ("0"%char :: yy))
    with ("0"%char :: take_while isdigit yy).
  change (fold_left (fun acc c => acc * 10 + (code c - 48))
                    ("0"%char :: take_while isdigit yy) (digit_value "2"))
    with (fold_left (fun acc c => acc * 10 + (code c - 48))
                    (take_while isdigit yy) 20).
  assert (forall v, 0 <= v <= 99999 ->
            (if (v <? Int.INT_MIN) || (v >? Int.INT_MAX)
             then Throw std_out_of_range else Ok v) = Ok v) as R.
  { intros v Hv. unfold Int.INT_MIN, Int.INT_MAX.
    destruct (Z.ltb_spec v (- 2 ^ 31)); [lia|].
    destruct (Z.gtb_spec v (2 ^ 31 - 1)); [lia|]. reflexivity. }
  destruct yy as [|a [|b r]].
  - apply R. simpl. lia.
  - change (take_while isdigit [a]) with (if isdigit a then [a] else []).
    destruct (isdigit a) eqn:Ha.
    + pose proof (isdigit_range a Ha).
      change (fold_left (fun acc c => acc * 10 + (code c - 48)) [a] 20)
        with (20 * 10 + digit_value a).
      rewrite R by lia. f_equal; lia.
    + apply R. simpl. lia.
  - destruct r as [|x r]; [|simpl in Hlen; lia].
    change (take_while isdigit [a; b])
      with (if isdigit a
            then a :: (if isdigit b then [b] else [])
            else []).
    destruct (isdigit a) eqn:Ha.
    + pose proof (isdigit_range a Ha).
      destruct (isdigit b) eqn:Hb.
      * pose proof (isdigit_range b Hb).
        change (fold_left (fun acc c => acc * 10 + (code c - 48)) [a; b] 20)
          with ((20 * 10 + digit_value a) * 10 + digit_value b).
        rewrite R by lia. f_equal; lia.
      * change (fold_left (fun acc c => acc * 10 + (code c - 48)) [a] 20)
          with (20 * 10 + digit_value a).
        rewrite R by lia. f_equal; lia.
    + apply R. simpl. lia.
Qed.

(** For an expiry text made of two digits, any one character, two digits
    and anything after them, [checkExpiry] throws nothing and prints the
    status of month MM and year 20YY.  The separator is not compared with
    '/', the month is not required to lie in 1..12, and characters after
    the year are ignored. *)
Theorem checkExpiry_reads_mm_yy :
  forall (env : Env) (c : CreditCard) (w : World)
         (d1 d2 sep d3 d4 : ascii) (rest : cstring),
    expiryDate c = d1 :: d2 :: sep :: d3 :: d4 :: rest ->
    isdigit d1 = true -> isdigit d2 = true ->
    isdigit d3 = true -> isdigit d4 = true ->
    checkExpiry env c w =
    (Ok tt,
     mkWorld
       ((cout w ++ status_line
           (expiryStatus (10 * digit_value d1 + digit_value d2)
                         (2000 + 10 * digit_value d3 + digit_value d4)
                         (Int.add (tm_mon env) 1)
                         (Int.add (tm_year env) 1900))) ++ nl)
       (cerr w) (card_log w) (stages w ++ [StExpiry])).
Proof.
  intros env c w d1 d2 sep d3 d4 rest E H1 H2 H3 H4.
  apply (checkExpiry_prints env c w [d1; d2] [d3; d4]).
  - rewrite E. apply substr_0_2.
  - apply stoi_two_digits; assumption.
  - rewrite E. unfold substr, size.
    destruct (Z.gtb_spec 3 (Z.of_nat
                (List.length (d1 :: d2 :: sep :: d3 :: d4 :: rest))));
      [simpl List.length in *; lia|reflexivity].
  - rewrite stoi_year by (simpl; lia). rewrite H3, H4. reflexivity.
Qed.

Lemma checkExpiry_reads_mm_yy_witness :
  checkExpiry (mkEnv 5 124 7)
              (CreditCard_new (lit "4539578763621486") (lit "13-30 (x)")
                              (lit "A B") 123)
              (mkWorld [] [] [] [])
  = (Ok tt,
     mkWorld
       (([] ++ status_line
           (expiryStatus (10 * digit_value "1" + digit_value "3")
                         (2000 + 10 * digit_value "3" + digit_value "0")
                         (Int.add 5 1) (Int.add 124 1900))) ++ nl)
       [] [] ([] ++ [StExpiry])).
Proof.
  apply (checkExpiry_reads_mm_yy
           (mkEnv 5 124 7)
           (CreditCard_new (lit "4539578763621486") (lit "13-30 (x)")
                           (lit "A B") 123)
           (mkWorld [] [] [] [])
           "1"%char "3"%char "-"%char "3"%char "0"%char (lit " (x)"));
    reflexivity.
Defined.

Ltac use_digits Y :=
  cbv iota in Y;
  repeat match goal with
         | H : isdigit _ = _ |- _ => rewrite H in Y
         end;
  exact Y.

(** Once the month has converted and the text has at least three
    characters, [checkExpiry] cannot throw: the year text starts with "20",
    so it always converts, to a value from 20 to 2099.  When the character
    after the separator is not a digit (or is missing) the year is 20. *)
Theorem checkExpiry_year_always_converts :
  forall (env : Env) (c : CreditCard) (w : World) (m : Z),
    stoi (firstn 2 (expiryDate c)) = Ok m ->
    3 <= size (expiryDate c) ->
    exists y : Z,
      20 <= y <= 2099
      /\ (isdigit (at_index (expiryDate c) 3) = false -> y = 20)
      /\ checkExpiry env c w =
         (Ok tt,
          mkWorld
            ((cout w ++ status_line
                (expiryStatus m y (Int.add (tm_mon env) 1)
                              (Int.add (tm_year env) 1900))) ++ nl)
            (cerr w) (card_log w) (stages w ++ [StExpiry])).
Proof.
  intros env c w m Hm Hsz.
  destruct (expiryDate c) as [|c0 [|c1 [|c2 r]]] eqn:E;
    try (unfold size in Hsz; simpl in Hsz; lia).
  assert (substr (c0 :: c1 :: c2 :: r) 3 2 = Ok (firstn 2 r)) as Hs.
  { unfold substr, size.
    destruct (Z.gtb_spec 3 (Z.of_nat (List.length (c0 :: c1 :: c2 :: r))));
      [simpl List.length in *; lia|reflexivity]. }
  assert (forall y,
            stoi (lit "20" ++ firstn 2 r) = Ok y ->
            checkExpiry env c w =
            (Ok tt,
             mkWorld
               ((cout w ++ status_line
                   (expiryStatus m y (Int.add (tm_mon env) 1)
                                 (Int.add (tm_year env) 1900))) ++ nl)
               (cerr w) (card_log w) (stages w ++ [StExpiry]))) as K.
  { intros y Hy.
    apply (checkExpiry_prints env c w (firstn 2 (c0 :: c1 :: c2 :: r))
                              (firstn 2 r)).
    - rewrite E. apply substr_0_2.
    - exact Hm.
    - rewrite E. exact Hs.
    - exact Hy. }
  change (at_index (c0 :: c1 :: c2 :: r) 3) with (nth 0 r NUL).
  pose proof (stoi_year (firstn 2 r) (firstn_le_length 2 r)) as Y.
  destruct r as [|a [|b r']].
  - exists 20. split; [lia|split; [intros X; try discriminate X; reflexivity|apply K; use_digits Y]].
  - change (firstn 2 [a]) with [a] in *. change (nth 0 [a] NUL) with a.
    destruct (isdigit a) eqn:Ha.
    + pose proof (isdigit_range a Ha).
      exists (200 + digit_value a).
      split; [lia|split; [intros X; try discriminate X; reflexivity|apply K; use_digits Y]].
    + exists 20. split; [lia|split; [intros X; try discriminate X; reflexivity|apply K; use_digits Y]].
  - change (firstn 2 (a :: b :: r')) with [a; b] in *.
    change (nth 0 (a :: b :: r') NUL) with a.
    destruct (isdigit a) eqn:Ha.
    + pose proof (isdigit_range a Ha).
      destruct (isdigit b) eqn:Hb.
      * pose proof (isdigit_range b Hb).
        exists (2000 + 10 * digit_value a + digit_value b).
        split; [lia|split; [intros X; try discriminate X; reflexivity|apply K; use_digits Y]].
      * exists (200 + digit_value a).
        split; [lia|split; [intros X; try discriminate X; reflexivity|apply K; use_digits Y]].
    + exists 20. split; [lia|split; [intros X; try discriminate X; reflexivity|apply K; use_digits Y]].
Qed.

Lemma checkExpiry_year_always_converts_witness :
  exists y : Z,
    20 <= y <= 2099
    /\ (isdigit (at_index (expiryDate
                   (CreditCard_new (lit "4539578763621486") (lit "12/xx")
                                   (lit "A B") 123)) 3) = false -> y = 20)
    /\ checkExpiry (mkEnv 5 124 7)
                   (CreditCard_new (lit "4539578763621486") (lit "12/xx")
                                   (lit "A B") 123)
                   (mkWorld [] [] [] [])
       = (Ok tt,
          mkWorld
            (([] ++ status_line
                (expiryStatus 12 y (Int.add 5 1) (Int.add 124 1900)))
               ++ nl)
            [] [] ([] ++ [StExpiry])).
Proof.
  apply (checkExpiry_year_always_converts
           (mkEnv 5 124 7)
           (CreditCard_new (lit "4539578763621486") (lit "12/xx")
                           (lit "A B") 123)
           (mkWorld [] [] [] []) 12).
  - reflexivity.
  - unfold size. simpl. lia.
Defined.

(** ** The expiry window in months *)

(** With calendar months on both sides: a card is Expired exactly when its
    expiry month lies before the current month; every card expiring within
    the next six months is ExpiringSoon; a card reported ExpiringSoon
    expires within eleven months; a card reported Valid expires at least
    seven months ahead. *)
Theorem expiry_window_in_months :
  forall month year currentMonth currentYear : Z,
    1 <= month <= 12 -> 1 <= currentMonth <= 12 ->
    Int.in_int year -> Int.in_int currentYear ->
    (expiryStatus month year currentMonth currentYear = Expired
     <-> months_ahead month year currentMonth currentYear < 0)
    /\ (0 <= months_ahead month year currentMonth currentYear <= 6 ->
        expiryStatus month year currentMonth currentYear = ExpiringSoon)
    /\ (expiryStatus month year currentMonth currentYear = ExpiringSoon ->
        0 <= months_ahead month year currentMonth currentYear <= 11)
    /\ (expiryStatus month year currentMonth currentYear = Valid ->
        7 <= months_ahead month year currentMonth currentYear).
Proof.
  intros month year cm cy Hm Hcm Hy Hcy.
  assert (Int.in_int month) as Hmi
    by (unfold Int.in_int, Int.INT_MIN, Int.INT_MAX; lia).
  destruct (expiryStatus_cases month year cm cy Hmi Hy Hcm Hcy)
    as [HE [HS HV]].
  unfold spec_expired, spec_expiring_soon, months_ahead in *.
  repeat split.
  - intros H. apply HE in H. lia.
  - intros H. apply HE. lia.
  - intros H. apply HS. lia.
  - apply HS in H. lia.
  - apply HS in H. lia.
  - intros H. apply HV in H. lia.
Qed.

Lemma expiry_window_in_months_witness :
  expiryStatus 2 2025 9 2024 = ExpiringSoon.
Proof.
  apply (proj1 (proj2 (expiry_window_in_months 2 2025 9 2024
                         ltac:(lia) ltac:(lia)
                         ltac:(unfold Int.in_int, Int.INT_MIN, Int.INT_MAX;
                               lia)
                         ltac:(unfold Int.in_int, Int.INT_MIN, Int.INT_MAX;
                               lia)))).
  unfold months_ahead. lia.
Defined.

(** ** Runs that end in an unexpected error, and runs that succeed *)

Lemma drop_while_Forall (P : ascii -> Prop) (q : ascii -> bool)
      (l : cstring) :
  Forall P l -> Forall P (drop_while q l).
Proof.
  induction l as [|c l IH]; intros H; simpl.
  - constructor.
  - inversion H; subst. destruct (q c); [apply IH|]; assumption.
Qed.

Lemma take_while_no_digit (l : cstring) :
  Forall (fun c => isdigit c = false) l -> take_while isdigit l = [].
Proof.
  destruct l as [|c l]; intros H; [reflexivity|].
  inversion H as [|? ? Hc _]; subst. simpl. rewrite Hc. reflexivity.
Qed.

Lemma scan_int_no_digit (l : cstring) :
  Forall (fun c => isdigit c = false) l -> scan_int l = None.
Proof.
  intros H. unfold scan_int.
  pose proof (drop_while_Forall _ isspace l H) as H1.
  destruct (drop_while isspace l) as [|c r].
  - reflexivity.
  - assert (Forall (fun c => isdigit c = false) r) as Hr
      by (inversion H1; assumption).
    destruct (Ascii.eqb c "-"); [|destruct (Ascii.eqb c "+")];
      rewrite take_while_no_digit by assumption; reflexivity.
Qed.

(** The two ways the month or year text can fail to be read. *)
Lemma parse_expiry_fails (e : cstring) :
  size e < 3 \/ Forall (fun c => isdigit c = false) (firstn 2 e) ->
  parse_expiry e = Throw std_out_of_range
  \/ parse_expiry e = Throw std_invalid_argument.
Proof.
  intros H.
  assert (exists x, parse_expiry e = Throw x) as [x Hx].
  { unfold parse_expiry. rewrite substr_0_2. unfold bind_result.
    destruct H as [H|H].
    - destruct (stoi (firstn 2 e)); [|eexists; reflexivity].
      unfold substr. destruct (Z.gtb_spec 3 (size e)); [|lia].
      eexists; reflexivity.
    - unfold stoi. rewrite scan_int_no_digit by assumption.
      eexists; reflexivity. }
  rewrite Hx. destruct (parse_expiry_throws e x Hx); subst; tauto.
Qed.

(** When the number is accepted but the expiry text cannot be read (it has
    fewer than three characters, or no digit among its first two), the run
    ends in the catch-all handler: the card lines up to the CVV status are
    already on the output, "Unexpected error occurred!" goes to the error
    stream, nothing is logged, no risk score is printed, and the exit status
    is 0.  The CVV status shown is that of the value the variable holds:
    the converted CVV text, or, when no CVV text was left to read (as after
    an input that ends with the number), the value the uninitialised
    variable had. *)
Theorem unreadable_expiry_unexpected_error :
  forall (env : Env) (inp : Input) (w : World),
    13 <= size (in_number inp) <= 19 ->
    validateCardNumber (in_number inp) = true ->
    size (in_expiry inp) < 3
    \/ Forall (fun c => isdigit c = false) (firstn 2 (in_expiry inp)) ->
    main env inp w =
    (0,
     mkWorld (cout w ++ prompt_text ++ card_text (card_of inp))
             (cerr w ++ msg_unexpected ++ nl)
             (card_log w)
             (stages w ++ [StConstruct; StLuhn; StDetect; StCVV; StExpiry]))
    /\ (drop_while isspace (in_cvv inp) = [] ->
        cvv (card_of inp) = cvv_uninit inp)
    /\ (drop_while isspace (in_cvv inp) <> [] ->
        cvv (card_of inp) = istream_int (in_cvv inp)).
Proof.
  intros env inp w Hlen Hv He. apply bad_length_false in Hlen.
  split; [|split].
  - rewrite main_spec.
    unfold err_text, log_text, outcome, run_text, stages_reached.
    rewrite Hlen, Hv. simpl negb. cbv iota.
    destruct (parse_expiry_fails _ He) as [Hp|Hp]; rewrite Hp;
      unfold report; rewrite !app_nil_r; reflexivity.
  - intros H. cbv [card_of set_cardType CreditCard_new cvv cin_read_int].
    rewrite H. reflexivity.
  - intros H. cbv [card_of set_cardType CreditCard_new cvv cin_read_int].
    destruct (drop_while isspace (in_cvv inp)); [congruence|reflexivity].
Qed.

Lemma unreadable_expiry_unexpected_error_witness :
  main (mkEnv 5 124 7)
       (mkInput (lit "4539578763621486") [] [] [] 321)
       (mkWorld [] [] [] [])
  = (0,
     mkWorld ([] ++ prompt_text
                ++ card_text
                     (card_of (mkInput (lit "4539578763621486") [] [] []
                                       321)))
             ([] ++ msg_unexpected ++ nl)
             []
             ([] ++ [StConstruct; StLuhn; StDetect; StCVV; StExpiry]))
  /\ cvv (card_of (mkInput (lit "4539578763621486") [] [] [] 321)) = 321.
Proof.
  assert (13 <= size (lit "4539578763621486") <= 19) as H1
    by (unfold size; simpl; lia).
  assert (size (@nil ascii) < 3) as H2 by (unfold size; simpl; lia).
  destruct (unreadable_expiry_unexpected_error
              (mkEnv 5 124 7)
              (mkInput (lit "4539578763621486") [] [] [] 321)
              (mkWorld [] [] [] [])
              H1 eq_refl (or_introl H2)) as [A [B _]].
  split; [exact A|exact (B eq_refl)].
Defined.

(** The log is only ever appended to, and only by a run that ends
    normally: such a run adds exactly one record (holder, network, masked
    number, expiry text), any run that ends in an exception leaves the file
    as it was. *)
Theorem log_appended_only_on_success :
  forall (env : Env) (inp : Input) (w : World),
    (fst (main_try env inp w) = Ok tt ->
     card_log (snd (main env inp w))
     = card_log w ++ log_block (card_of inp))
    /\ (forall e : exn,
           fst (main_try env inp w) = Throw e ->
           card_log (snd (main env inp w)) = card_log w).
Proof.
  intros env inp w. rewrite main_spec, main_try_spec.
  cbn [fst snd card_log]. unfold log_text. split.
  - intros H. rewrite H. reflexivity.
  - intros e H. rewrite H. apply app_nil_r.
Qed.

Lemma log_appended_only_on_success_witness :
  card_log (snd (main (mkEnv 5 124 7)
                      (mkInput (lit "4539578763621486") (lit "12/30")
                               (lit "A B") (lit "123") 0)
                      (mkWorld [] [] (lit "earlier entries") [])))
  = lit "earlier entries"
    ++ log_block (card_of (mkInput (lit "4539578763621486") (lit "12/30")
                                   (lit "A B") (lit "123") 0)).
Proof.
  apply (proj1 (log_appended_only_on_success
                  (mkEnv 5 124 7)
                  (mkInput (lit "4539578763621486") (lit "12/30")
                           (lit "A B") (lit "123") 0)
                  (mkWorld [] [] (lit "earlier entries") []))).
  vm_compute. reflexivity.
Defined.

Lemma parse_expiry_mm_yy (d1 d2 sep d3 d4 : ascii) (rest : cstring) :
  isdigit d1 = true -> isdigit d2 = true ->
  isdigit d3 = true -> isdigit d4 = true ->
  parse_expiry (d1 :: d2 :: sep :: d3 :: d4 :: rest)
  = Ok (10 * digit_value d1 + digit_value d2,
        2000 + 10 * digit_value d3 + digit_value d4).
Proof.
  intros H1 H2 H3 H4. unfold parse_expiry.
  rewrite substr_0_2.
  change (firstn 2 (d1 :: d2 :: sep :: d3 :: d4 :: rest)) with [d1; d2].
  unfold bind_result at 1. rewrite stoi_two_digits by assumption.
  unfold bind_result at 1.
  assert (substr (d1 :: d2 :: sep :: d3 :: d4 :: rest) 3 2 = Ok [d3; d4])
    as Hs.
  { unfold substr, size.
    destruct (Z.gtb_spec 3 (Z.of_nat
                (List.length (d1 :: d2 :: sep :: d3 :: d4 :: rest))));
      [simpl List.length in *; lia|reflexivity]. }
  rewrite Hs. unfold bind_result at 1.
  rewrite stoi_year by (simpl; lia). rewrite H3, H4. reflexivity.
Qed.

(** A number of 13 to 19 characters that passes the Luhn check, with an
    expiry text of the form two digits, a character, two digits, always
    gives a complete run, whatever the holder and the CVV: all seven steps
    in order, one log record, nothing on the error stream. *)
Theorem accepted_input_completes :
  forall (env : Env) (inp : Input) (w : World)
         (d1 d2 sep d3 d4 : ascii) (rest : cstring),
    13 <= size (in_number inp) <= 19 ->
    validateCardNumber (in_number inp) = true ->
    in_expiry inp = d1 :: d2 :: sep :: d3 :: d4 :: rest ->
    isdigit d1 = true -> isdigit d2 = true ->
    isdigit d3 = true -> isdigit d4 = true ->
    fst (main_try env inp w) = Ok tt
    /\ stages (snd (main env inp w))
       = stages w ++ [StConstruct; StLuhn; StDetect; StCVV; StExpiry;
                      StLog; StRisk]
    /\ card_log (snd (main env inp w))
       = card_log w ++ log_block (card_of inp)
    /\ cerr (snd (main env inp w)) = cerr w.
Proof.
  intros env inp w d1 d2 sep d3 d4 rest Hlen Hv He H1 H2 H3 H4.
  apply bad_length_false in Hlen.
  rewrite main_spec, main_try_spec. cbn [fst snd stages card_log cerr].
  unfold err_text, log_text, outcome, stages_reached.
  rewrite Hlen, Hv, He. simpl negb. cbv iota.
  rewrite parse_expiry_mm_yy by assumption.
  repeat split. apply app_nil_r.
Qed.

Lemma accepted_input_completes_witness :
  fst (main_try (mkEnv 5 124 7)
                (mkInput (lit "4539578763621486") (lit "12/30") (lit "A B")
                         (lit "045") 0)
                (mkWorld [] [] [] [])) = Ok tt.
Proof.
  apply (accepted_input_completes
           (mkEnv 5 124 7)
           (mkInput (lit "4539578763621486") (lit "12/30") (lit "A B")
                    (lit "045") 0)
           (mkWorld [] [] [] [])
           "1"%char "2"%char "/"%char "3"%char "0"%char []).
  - unfold size. simpl. lia.
  - reflexivity.
  - reflexivity.
  - reflexivity.
  - reflexivity.
  - reflexivity.
  - reflexivity.
Defined.
